(** * rtl-visual: the output-stationary systolic array simulator

    A shallow embedding of [src/value.js] and [src/hardware.js] and the
    properties of the cycle-accurate simulation that the specification
    states about them.

    Conventions of the embedding.
    - A JavaScript number is an integer of [Z]; the simulator only ever
      builds numbers from array sizes, loop counters and [+ 1].  Memory
      is unbounded: neither the precision of a double nor the largest
      array length of the runtime is modelled.
    - A JavaScript array is a [list]; an index is a [Z], as the source
      computes it.  Reading a slot that does not exist answers
      [Undefined]; writing past the end extends the array with holes, and
      a hole reads as [Undefined] too.
    - A [throw] is an [Err]; the five error kinds of the specification
      name the [throw new Error] sites of the source, [RangeError] and
      [TypeError] are the ones the JavaScript runtime raises itself
      ([new Array] of an invalid length, a property read on [undefined]).
    - Objects mutated in place are threaded as explicit state, in the
      order in which the source performs the assignments. *)

From Stdlib Require Import ZArith List String Ascii Bool Lia.
From Stdlib Require Import DecimalString DecimalZ DecimalPos.
Import ListNotations.
Open Scope Z_scope.

(** ** Errors and the error monad *)

Inductive Error : Type :=
| DimensionMismatch
| InconsistentAccumulation
| InvalidOperandPair
| LengthMismatch
| OutOfBounds
| InvalidFirstValue
| RangeError
| TypeError.

Inductive result (A : Type) : Type :=
| Ok (a : A)
| Err (e : Error).
Arguments Ok {A} a.
Arguments Err {A} e.

Definition bind {A B : Type} (m : result A) (k : A -> result B) : result B :=
  match m with
  | Ok a => k a
  | Err e => Err e
  end.

Notation "x <- m ;; k" := (bind m (fun x => k))
  (at level 61, m at next level, right associativity).
Notation "m ;;; k" := (bind m (fun _ => k))
  (at level 61, right associativity).

(** ** Loops

    [for_up lo n body] is [for (let i = lo; i < lo + n; i++) body(i)] and
    [for_down lo n body] is [for (let i = lo + n - 1; i >= lo; i--) body(i)];
    the loop body receives the state the previous iteration left. *)

Fixpoint for_up {S : Type} (lo : Z) (n : nat) (body : Z -> S -> result S) (s : S)
  : result S :=
  match n with
  | O => Ok s
  | Datatypes.S m => s' <- body lo s ;; for_up (lo + 1) m body s'
  end.

Fixpoint for_down {S : Type} (lo : Z) (n : nat) (body : Z -> S -> result S) (s : S)
  : result S :=
  match n with
  | O => Ok s
  | Datatypes.S m => s' <- body (lo + Z.of_nat m) s ;; for_down lo m body s'
  end.

(** [a.map(f)] for an [f] that may throw. *)
Fixpoint mapM {A B : Type} (f : A -> result B) (l : list A) : result (list B) :=
  match l with
  | [] => Ok []
  | x :: t => y <- f x ;; ys <- mapM f t ;; Ok (y :: ys)
  end.

(** [new Array(n)] whose slot [i] is then assigned [f i] for [i = 0 .. n-1]
    (the constructors of the nested arrays). *)
Definition array_init {A : Type} (n : nat) (f : Z -> result A) : result (list A) :=
  mapM (fun i => f (Z.of_nat i)) (seq 0 n).

(** ** Symbolic values ([value.js])

    The three concrete subclasses of [Value], and [Undefined] for what an
    array slot holds when nothing was stored in it. *)

Inductive Value : Type :=
| ConstantInteger (value : Z)
| SymbolicMatrixElement (matrixName : string) (i j : Z)
| SymbolicPartialSum (leftMatrixName rightMatrixName : string) (i j N : Z)
| Undefined.

Definition string_of_number (z : Z) : string :=
  NilZero.string_of_int (Z.to_int z).

Definition toString (v : Value) : result string :=
  match v with
  | ConstantInteger value => Ok (string_of_number value)
  | SymbolicMatrixElement matrixName i j =>
      Ok (matrixName ++ "_{" ++ string_of_number i ++ string_of_number j ++ "}")%string
  | SymbolicPartialSum leftMatrixName rightMatrixName i j N =>
      Ok ("\sum_{0}^{" ++ string_of_number (N - 1) ++ "} "
          ++ leftMatrixName ++ "_{" ++ string_of_number i ++ "i} "
          ++ rightMatrixName ++ "_{i" ++ string_of_number j ++ "}")%string
  | Undefined => Err TypeError
  end.

Definition isConstantZero (v : Value) : bool :=
  match v with
  | ConstantInteger value => value =? 0
  | _ => false
  end.

(** [throw new Error(`... ${v.toString()} ...`)]: the message is built
    first, so a [toString] on [undefined] raises before the [Error]. *)
Fixpoint throw_with {A : Type} (parts : list Value) (e : Error) : result A :=
  match parts with
  | [] => Err e
  | v :: rest => toString v ;;; throw_with rest e
  end.

(** ** Arrays *)

(** [new Array(len)]: [len] holes, or a [RangeError] for a negative
    length. *)
Definition new_Array (len : Z) : result (list Value) :=
  if 0 <=? len then Ok (repeat Undefined (Z.to_nat len)) else Err RangeError.

Fixpoint replace_nth {A : Type} (n : nat) (l : list A) (v : A) : list A :=
  match l, n with
  | [], _ => []
  | _ :: t, O => v :: t
  | h :: t, Datatypes.S m => h :: replace_nth m t v
  end.

(** [a[i]] on an array of values. *)
Definition js_get (a : list Value) (i : Z) : Value :=
  if i <? 0 then Undefined else nth (Z.to_nat i) a Undefined.

(** [a[i] = v] on an array of values. *)
Definition js_set (a : list Value) (i : Z) (v : Value) : list Value :=
  if i <? 0 then a
  else
    let n := Z.to_nat i in
    if (n <? List.length a)%nat then replace_nth n a v
    else a ++ repeat Undefined (n - List.length a) ++ [v].

(** [a.fill(v)] *)
Definition js_fill (a : list Value) (v : Value) : list Value :=
  map (fun _ => v) a.

(** [a.slice(start, end)] *)
Definition js_slice (a : list Value) (start end_ : Z) : list Value :=
  let len := Z.of_nat (List.length a) in
  let k := if start <? 0 then Z.max (len + start) 0 else Z.min start len in
  let final := if end_ <? 0 then Z.max (len + end_) 0 else Z.min end_ len in
  firstn (Z.to_nat (final - k)) (skipn (Z.to_nat k) a).

(** [a[i]] where a property of the result is read next: a missing slot
    is a [TypeError]. *)
Definition obj_get {A : Type} (a : list A) (i : Z) : result A :=
  if i <? 0 then Err TypeError
  else match nth_error a (Z.to_nat i) with
       | Some x => Ok x
       | None => Err TypeError
       end.

(** The object found by [obj_get a i] is mutated in place into [x]. *)
Definition obj_put {A : Type} (a : list A) (i : Z) (x : A) : list A :=
  if i <? 0 then a else replace_nth (Z.to_nat i) a x.

(** ** The processing element ([class OutputStationaryPE])

    [update] takes the two fields [X_in] and [W_in] of [inValues]. *)

Module OutputStationaryPE.

Record Registers : Type := { X : Value; W : Value; Acc : Value }.

Definition new : Registers :=
  {| X := ConstantInteger 0; W := ConstantInteger 0; Acc := ConstantInteger 0 |}.

Definition propagate (regs : Registers) : Value * Value * Value :=
  (X regs, W regs, Acc regs).

(** The validation under [CAREFUL] (which is always [true]). *)
Definition validate (xn : string) (xi xj : Z) (wn : string) (wi wj : Z)
    (nextAcc : Value) : result unit :=
  let x := SymbolicMatrixElement xn xi xj in
  let w := SymbolicMatrixElement wn wi wj in
  let k := xj in
  if negb (xj =? wi) then throw_with [x; w] InconsistentAccumulation
  else if isConstantZero nextAcc then
    (if negb (k =? 0) then Err InconsistentAccumulation else Ok tt)
  else
    match nextAcc with
    | SymbolicPartialSum l r ai aj aN =>
        if aN =? k then
          if negb (l =? xn)%string || negb (r =? wn)%string
             || negb (ai =? xi) || negb (aj =? wj)
          then throw_with [nextAcc; x; w] InconsistentAccumulation
          else Ok tt
        else throw_with [nextAcc; x; w] InconsistentAccumulation
    | _ => throw_with [nextAcc; x; w] InconsistentAccumulation
    end.

Definition next_Acc (regs : Registers) : result Value :=
  let nextAcc := Acc regs in
  match X regs, W regs with
  | SymbolicMatrixElement xn xi xj, SymbolicMatrixElement wn wi wj =>
      let k := xj in
      validate xn xi xj wn wi wj nextAcc ;;;
      Ok (SymbolicPartialSum xn wn xi wj (k + 1))
  | _, _ =>
      if isConstantZero (X regs) || isConstantZero (W regs) then Ok nextAcc
      else throw_with [X regs; W regs] InvalidOperandPair
  end.

Definition update (regs : Registers) (X_in W_in : Value) : result Registers :=
  nextAcc <- next_Acc regs ;;
  Ok {| X := X_in; W := W_in; Acc := nextAcc |}.

Definition set_Acc (regs : Registers) (v : Value) : Registers :=
  {| X := X regs; W := W regs; Acc := v |}.

End OutputStationaryPE.

(** ** The systolic array ([class OutputStationarySystolicArray])

    [controls] is its one field, [movesOutputDown]. *)

Module OutputStationarySystolicArray.
Import OutputStationaryPE.

Record t : Type := { N : Z; array : list (list Registers) }.

Definition Grid : Type := list (list Registers).

(** [this.array[i][j]], the PE object whose [regs] are read or written. *)
Definition pe_get (a : Grid) (i j : Z) : result Registers :=
  row <- obj_get a i ;; obj_get row j.

Definition pe_put (a : Grid) (i j : Z) (regs : Registers) : Grid :=
  match obj_get a i with
  | Ok row => obj_put a i (obj_put row j regs)
  | Err _ => a
  end.

Definition new (N : Z) : result t :=
  new_Array N ;;;
  array <- array_init (Z.to_nat N) (fun _ =>
             new_Array N ;;;
             array_init (Z.to_nat N) (fun _ => Ok OutputStationaryPE.new)) ;;
  Ok {| N := N; array := array |}.

Definition produce_output (this : t) (movesOutputDown : bool) : result (list Value) :=
  output <- new_Array (N this) ;;
  if movesOutputDown then
    for_up 0 (Z.to_nat (N this)) (fun i output =>
      pe <- pe_get (array this) (N this - 1) i ;;
      Ok (js_set output i (Acc pe))) output
  else
    for_up 0 (Z.to_nat (N this)) (fun i output =>
      Ok (js_set output i (ConstantInteger 0))) output.

(** One column of the eviction: the accumulators move one row down,
    bottom row first, and row 0 is cleared. *)
Definition evict_column (n : Z) (j : Z) (a : Grid) : result Grid :=
  a <- for_down 1 (Z.to_nat (n - 1)) (fun i a =>
         dst <- pe_get a i j ;;
         src <- pe_get a (i - 1) j ;;
         Ok (pe_put a i j (set_Acc dst (Acc src)))) a ;;
  top <- pe_get a 0 j ;;
  Ok (pe_put a 0 j (set_Acc top (ConstantInteger 0))).

(** One PE of the wavefront step, reading the neighbours as they are
    in the array at that moment. *)
Definition flow_cell (inputs_X inputs_W : list Value) (i j : Z) (a : Grid)
  : result Grid :=
  pe <- pe_get a i j ;;
  X_in <- (if j =? 0 then Ok (js_get inputs_X i)
           else left <- pe_get a i (j - 1) ;; Ok (X left)) ;;
  W_in <- (if i =? 0 then Ok (js_get inputs_W j)
           else up <- pe_get a (i - 1) j ;; Ok (W up)) ;;
  pe' <- OutputStationaryPE.update pe X_in W_in ;;
  Ok (pe_put a i j pe').

Definition update (this : t) (inputs_X inputs_W : list Value)
    (movesOutputDown : bool) : result t :=
  let n := Z.to_nat (N this) in
  array <- (if movesOutputDown then
              for_up 0 n (evict_column (N this)) (array this)
            else
              for_down 0 n (fun i a =>
                for_down 0 n (fun j a => flow_cell inputs_X inputs_W i j a) a)
                (array this)) ;;
  Ok {| N := N this; array := array |}.

End OutputStationarySystolicArray.

(** ** The delay-register triangle ([class DelayRegisterTriangle]) *)

Module DelayRegisterTriangle.

Record t : Type := { N : Z; registers : list (list Value) }.

Definition new (N : Z) : result t :=
  new_Array N ;;;
  registers <- array_init (Z.to_nat N) (fun i =>
                 row <- new_Array i ;;
                 for_up 0 (Z.to_nat (i + 1)) (fun j row =>
                   Ok (js_set row j (ConstantInteger 0))) row) ;;
  Ok {| N := N; registers := registers |}.

Definition check_length (this : t) (input : list Value) : result unit :=
  if negb (Z.of_nat (List.length input) =? N this + 1)
  then Err LengthMismatch else Ok tt.

Definition produce_output (this : t) (input : list Value) : result (list Value) :=
  check_length this input ;;;
  output <- new_Array (N this + 1) ;;
  let output := js_set output 0 (js_get input 0) in
  for_up 1 (Z.to_nat (N this)) (fun i output =>
    row <- obj_get (registers this) (i - 1) ;;
    Ok (js_set output i (js_get row (i - 1)))) output.

(** One shift chain: [for (j = i; j > 0; j--) row[j] = row[j-1]], then
    the new input at the shallow end. *)
Definition shift_row (input : list Value) (i : Z) (regs : list (list Value))
  : result (list (list Value)) :=
  regs <- for_down 1 (Z.to_nat i) (fun j regs =>
            row <- obj_get regs i ;;
            Ok (obj_put regs i (js_set row j (js_get row (j - 1))))) regs ;;
  row <- obj_get regs i ;;
  Ok (obj_put regs i (js_set row 0 (js_get input (i + 1)))).

Definition update (this : t) (input : list Value) : result t :=
  check_length this input ;;;
  registers <- for_up 0 (Z.to_nat (N this)) (shift_row input) (registers this) ;;
  Ok {| N := N this; registers := registers |}.

End DelayRegisterTriangle.

(** ** The row-addressable memory ([class MatrixRAM]) *)

Module MatrixRAM.

Record t : Type := { row_count : Z; col_count : Z; cells : list Value }.

Definition new (row_count col_count : Z) (first_value : Value) (transposed : bool)
  : result t :=
  cells <- new_Array (row_count * col_count) ;;
  cells <- match first_value with
           | ConstantInteger _ =>
               for_up 0 (Z.to_nat (row_count * col_count)) (fun i cells =>
                 Ok (js_set cells i first_value)) cells
           | SymbolicMatrixElement name _ _ =>
               for_up 0 (Z.to_nat row_count) (fun i cells =>
                 for_up 0 (Z.to_nat col_count) (fun j cells =>
                   Ok (js_set cells (i * col_count + j)
                         (if transposed then SymbolicMatrixElement name j i
                          else SymbolicMatrixElement name i j))) cells) cells
           | _ => Err InvalidFirstValue
           end ;;
  Ok {| row_count := row_count; col_count := col_count; cells := cells |}.

Definition _checkPosition (this : t) (row_index col_offset element_count : Z)
  : result unit :=
  if (row_index <? 0) || (row_index >=? row_count this) then Err OutOfBounds
  else if (col_offset <? 0) || (col_offset + element_count >? col_count this)
  then Err OutOfBounds
  else Ok tt.

Definition readRow (this : t) (row_index col_offset element_count : Z)
  : result (list Value) :=
  _checkPosition this row_index col_offset element_count ;;;
  let start := row_index * col_count this + col_offset in
  Ok (js_slice (cells this) start (start + element_count)).

Definition writeRow (this : t) (row_index col_offset element_count : Z)
    (row : list Value) : result t :=
  _checkPosition this row_index col_offset element_count ;;;
  let start := row_index * col_count this + col_offset in
  cells <- for_up 0 (Z.to_nat element_count) (fun i cells =>
             Ok (js_set cells (start + i) (js_get row i))) (cells this) ;;
  Ok {| row_count := row_count this; col_count := col_count this; cells := cells |}.

End MatrixRAM.

(** ** The controller ([class OutputStationaryController]) *)

Module OutputStationaryController.

Record AllControls : Type := {
  X_memReadEnable : bool;
  X_memReadAddress : Z;
  W_memReadEnable : bool;
  W_memReadAddress : Z;
  Y_memWriteEnable : bool;
  Y_memWriteAddress : Z;
  movesOutputDown : bool
}.

Record t : Type := { arrayWidth : Z; streamLength : Z; cycleCount : Z }.

Definition new (arrayWidth streamLength : Z) : t :=
  {| arrayWidth := arrayWidth; streamLength := streamLength; cycleCount := 0 |}.

Definition produceControlSignals (this : t) : AllControls :=
  let completeCycle := (2 * arrayWidth this - 1) + streamLength this in
  {| X_memReadEnable := cycleCount this <? streamLength this;
     X_memReadAddress := cycleCount this;
     W_memReadEnable := cycleCount this <? streamLength this;
     W_memReadAddress := cycleCount this;
     Y_memWriteEnable := (cycleCount this >=? completeCycle)
                         && (cycleCount this <? completeCycle + arrayWidth this);
     Y_memWriteAddress := (arrayWidth this - 1) - (cycleCount this - completeCycle);
     movesOutputDown := cycleCount this >=? completeCycle |}.

Definition update (this : t) : t :=
  {| arrayWidth := arrayWidth this; streamLength := streamLength this;
     cycleCount := cycleCount this + 1 |}.

End OutputStationaryController.

(** ** The top-level design ([class OutputStationaryTopLevel])

    [simulate] answers the snapshots and, with them, the design as the
    run left it (the source mutates [this]). *)

Module OutputStationaryTopLevel.
Import OutputStationaryController.

Record t : Type := {
  arrayWidth : Z;
  streamLength : Z;
  X_mem : MatrixRAM.t;
  W_mem : MatrixRAM.t;
  Y_mem : MatrixRAM.t;
  X_delay : DelayRegisterTriangle.t;
  W_delay : DelayRegisterTriangle.t;
  systolicArray : OutputStationarySystolicArray.t;
  controller : OutputStationaryController.t
}.

Definition new (X_row_count X_col_count W_row_count W_col_count
                systolic_row_count systolic_col_count : Z) : result t :=
  if negb (X_col_count =? W_row_count) then Err DimensionMismatch
  else if negb (X_row_count =? systolic_row_count)
          || negb (W_col_count =? systolic_col_count) then Err DimensionMismatch
  else if negb (systolic_row_count =? systolic_col_count) then Err DimensionMismatch
  else
    let arrayWidth := systolic_row_count in
    let streamLength := X_col_count in
    X_mem <- MatrixRAM.new X_col_count X_row_count
               (SymbolicMatrixElement "X" 0 0) true ;;
    W_mem <- MatrixRAM.new W_row_count W_col_count
               (SymbolicMatrixElement "W" 0 0) false ;;
    Y_mem <- MatrixRAM.new arrayWidth arrayWidth (ConstantInteger 0) false ;;
    X_delay <- DelayRegisterTriangle.new (arrayWidth - 1) ;;
    W_delay <- DelayRegisterTriangle.new (arrayWidth - 1) ;;
    systolicArray <- OutputStationarySystolicArray.new arrayWidth ;;
    Ok {| arrayWidth := arrayWidth;
          streamLength := streamLength;
          X_mem := X_mem; W_mem := W_mem; Y_mem := Y_mem;
          X_delay := X_delay; W_delay := W_delay;
          systolicArray := systolicArray;
          controller := OutputStationaryController.new arrayWidth streamLength |}.

(** [new Array(this.arrayWidth).fill(new ConstantInteger(0))] *)
Definition zero_row (this : t) : result (list Value) :=
  a <- new_Array (arrayWidth this) ;; Ok (js_fill a (ConstantInteger 0)).

Definition update (this : t) : result t :=
  let controls := produceControlSignals (controller this) in
  let controller' := OutputStationaryController.update (controller this) in
  X_in <- (if X_memReadEnable controls
           then MatrixRAM.readRow (X_mem this) (X_memReadAddress controls) 0
                  (arrayWidth this)
           else zero_row this) ;;
  W_in <- (if W_memReadEnable controls
           then MatrixRAM.readRow (W_mem this) (W_memReadAddress controls) 0
                  (arrayWidth this)
           else zero_row this) ;;
  X_in_delayed <- DelayRegisterTriangle.produce_output (X_delay this) X_in ;;
  X_delay' <- DelayRegisterTriangle.update (X_delay this) X_in ;;
  W_in_delayed <- DelayRegisterTriangle.produce_output (W_delay this) W_in ;;
  W_delay' <- DelayRegisterTriangle.update (W_delay this) W_in ;;
  Y_out <- OutputStationarySystolicArray.produce_output (systolicArray this)
             (movesOutputDown controls) ;;
  Y_mem' <- (if Y_memWriteEnable controls
             then MatrixRAM.writeRow (Y_mem this) (Y_memWriteAddress controls) 0
                    (arrayWidth this) Y_out
             else Ok (Y_mem this)) ;;
  systolicArray' <- OutputStationarySystolicArray.update (systolicArray this)
                      X_in_delayed W_in_delayed (movesOutputDown controls) ;;
  Ok {| arrayWidth := arrayWidth this;
        streamLength := streamLength this;
        X_mem := X_mem this; W_mem := W_mem this; Y_mem := Y_mem';
        X_delay := X_delay'; W_delay := W_delay';
        systolicArray := systolicArray';
        controller := controller' |}.

(** The snapshot: every register stringified, the cycle count and the
    control signals of the cycle. *)
Record PE_dump : Type := { X : string; W : string; Acc : string }.

Record Snapshot : Type := {
  regs_X_mem : list string;
  regs_W_mem : list string;
  regs_Y_mem : list string;
  regs_X_delay : list (list string);
  regs_W_delay : list (list string);
  regs_systolicArray : list (list PE_dump);
  regs_controls_cycleCount : Z;
  wires_controlSignals : AllControls
}.

Definition dump_pe (pe : OutputStationaryPE.Registers) : result PE_dump :=
  x <- toString (OutputStationaryPE.X pe) ;;
  w <- toString (OutputStationaryPE.W pe) ;;
  acc <- toString (OutputStationaryPE.Acc pe) ;;
  Ok {| X := x; W := w; Acc := acc |}.

Definition dump_state (this : t) : result Snapshot :=
  xm <- mapM toString (MatrixRAM.cells (X_mem this)) ;;
  wm <- mapM toString (MatrixRAM.cells (W_mem this)) ;;
  ym <- mapM toString (MatrixRAM.cells (Y_mem this)) ;;
  xd <- mapM (mapM toString) (DelayRegisterTriangle.registers (X_delay this)) ;;
  wd <- mapM (mapM toString) (DelayRegisterTriangle.registers (W_delay this)) ;;
  sa <- mapM (mapM dump_pe) (OutputStationarySystolicArray.array (systolicArray this)) ;;
  Ok {| regs_X_mem := xm; regs_W_mem := wm; regs_Y_mem := ym;
        regs_X_delay := xd; regs_W_delay := wd;
        regs_systolicArray := sa;
        regs_controls_cycleCount := cycleCount (controller this);
        wires_controlSignals := produceControlSignals (controller this) |}.

(** The loop of [simulate]: [states[i] = this.dump_state(); this.update()].
    It answers the snapshots in order, and the design as the last
    update left it. *)
Fixpoint simulate_loop (n : nat) (this : t) : result (list Snapshot * t) :=
  match n with
  | O => Ok ([], this)
  | S m =>
      snapshot <- dump_state this ;;
      this' <- update this ;;
      rest <- simulate_loop m this' ;;
      Ok (snapshot :: fst rest, snd rest)
  end.

(** [numCycles] is [None] for [null]. *)
Definition simulate (this : t) (numCycles : option Z) : result (list Snapshot * t) :=
  let numCycles := match numCycles with
                   | None => 3 * arrayWidth this + streamLength this
                   | Some n => n
                   end in
  new_Array numCycles ;;;
  simulate_loop (Z.to_nat numCycles) this.

(** The design after [n] updates. *)
Fixpoint run (n : nat) (this : t) : result t :=
  match n with
  | O => Ok this
  | S m => this' <- update this ;; run m this'
  end.

End OutputStationaryTopLevel.

(** * Closed forms

    [tab n f] is the array of length [n] whose slot [i] holds [f i];
    [tab2] is a square grid and [tabj] the jagged triangle whose row [i]
    has [i + 1] slots.  The states the simulation goes through are
    described as tabulated arrays. *)

Definition tab {A : Type} (n : Z) (f : Z -> A) : list A :=
  map (fun i => f (Z.of_nat i)) (seq 0 (Z.to_nat n)).

Definition tab2 {A : Type} (n : Z) (F : Z -> Z -> A) : list (list A) :=
  tab n (fun i => tab n (F i)).

Definition tabj {A : Type} (n : Z) (F : Z -> Z -> A) : list (list A) :=
  tab n (fun i => tab (i + 1) (F i)).

(** The grid after one eviction step, and after one wavefront step in
    which the PE at [(i, j)] computed the accumulator [A i j]. *)
Definition evicted (F : Z -> Z -> OutputStationaryPE.Registers) (i j : Z)
  : OutputStationaryPE.Registers :=
  OutputStationaryPE.set_Acc (F i j)
    (if i =? 0 then ConstantInteger 0 else OutputStationaryPE.Acc (F (i - 1) j)).

Definition flowed (inputs_X inputs_W : list Value)
    (F : Z -> Z -> OutputStationaryPE.Registers) (A : Z -> Z -> Value) (i j : Z)
  : OutputStationaryPE.Registers :=
  {| OutputStationaryPE.X :=
       if j =? 0 then js_get inputs_X i else OutputStationaryPE.X (F i (j - 1));
     OutputStationaryPE.W :=
       if i =? 0 then js_get inputs_W j else OutputStationaryPE.W (F (i - 1) j);
     OutputStationaryPE.Acc := A i j |}.

(** The delay triangle after one update with [input]. *)
Definition shifted (input : list Value) (F : Z -> Z -> Value) (i j : Z) : Value :=
  if j =? 0 then js_get input (i + 1) else F i (j - 1).

(** The cell that the constructor of [MatrixRAM] generates at row [i] and
    column [j], and the memory after a row was written into it. *)
Definition generated (name : string) (transposed : bool) (i j : Z) : Value :=
  if transposed then SymbolicMatrixElement name j i
  else SymbolicMatrixElement name i j.

Definition row_written (cols r : Z) (row : list Value) (f : Z -> Value) (idx : Z)
  : Value :=
  if (r * cols <=? idx) && (idx <? r * cols + cols) then js_get row (idx - r * cols)
  else f idx.

(** A memory of [rows] by [cols] cells, in row-major order, whose cell at
    row [i] and column [j] holds [y i j]. *)
Definition flat {A : Type} (cols : Z) (y : Z -> Z -> A) (idx : Z) : A :=
  y (idx / cols) (idx mod cols).

Definition matrix {A : Type} (rows cols : Z) (y : Z -> Z -> A) : list A :=
  tab (rows * cols) (flat cols y).

(** ** The state of the design at every cycle

    For array width [N] and stream length [L], the design after [c]
    updates.  [k = c - 1 - i - j] is the reduction index that the PE at
    [(i, j)] holds after [c] updates. *)

Definition drainStart (N L : Z) : Z := (2 * N - 1) + L.

Definition zero : Value := ConstantInteger 0.

(** Slot [r] of the row that the X (resp. W) memory streams at cycle [t]. *)
Definition X_stream (L t r : Z) : Value :=
  if (0 <=? t) && (t <? L) then SymbolicMatrixElement "X" r t else zero.

Definition W_stream (L t r : Z) : Value :=
  if (0 <=? t) && (t <? L) then SymbolicMatrixElement "W" t r else zero.

(** The accumulator that has folded [count] terms of output [(i, j)]. *)
Definition partial_sum (i j count : Z) : Value :=
  if count <=? 0 then zero else SymbolicPartialSum "X" "W" i j count.

Definition acc_at (N L c i j : Z) : Value :=
  if c <=? drainStart N L then partial_sum i j (Z.min (c - 1 - i - j) L)
  else if c - drainStart N L <=? i then partial_sum (i - (c - drainStart N L)) j L
       else zero.

Definition pe_at (N L c i j : Z) : OutputStationaryPE.Registers :=
  {| OutputStationaryPE.X := X_stream L (c - 1 - i - j) i;
     OutputStationaryPE.W := W_stream L (c - 1 - i - j) j;
     OutputStationaryPE.Acc := acc_at N L c i j |}.

Definition y_at (N L c i j : Z) : Value :=
  if (drainStart N L <? c) && (N - (c - drainStart N L) <=? i)
  then partial_sum i j L else zero.

(** The output vector of the array at cycle [c]. *)
Definition Y_out_at (N L c j : Z) : Value :=
  if drainStart N L <=? c then acc_at N L c (N - 1) j else zero.

Definition state_at (N L c : Z) : OutputStationaryTopLevel.t :=
  {| OutputStationaryTopLevel.arrayWidth := N;
     OutputStationaryTopLevel.streamLength := L;
     OutputStationaryTopLevel.X_mem :=
       {| MatrixRAM.row_count := L; MatrixRAM.col_count := N;
          MatrixRAM.cells := matrix L N (generated "X" true) |};
     OutputStationaryTopLevel.W_mem :=
       {| MatrixRAM.row_count := L; MatrixRAM.col_count := N;
          MatrixRAM.cells := matrix L N (generated "W" false) |};
     OutputStationaryTopLevel.Y_mem :=
       {| MatrixRAM.row_count := N; MatrixRAM.col_count := N;
          MatrixRAM.cells := matrix N N (y_at N L c) |};
     OutputStationaryTopLevel.X_delay :=
       {| DelayRegisterTriangle.N := N - 1;
          DelayRegisterTriangle.registers :=
            tabj (N - 1) (fun i j => X_stream L (c - 1 - j) (i + 1)) |};
     OutputStationaryTopLevel.W_delay :=
       {| DelayRegisterTriangle.N := N - 1;
          DelayRegisterTriangle.registers :=
            tabj (N - 1) (fun i j => W_stream L (c - 1 - j) (i + 1)) |};
     OutputStationaryTopLevel.systolicArray :=
       {| OutputStationarySystolicArray.N := N;
          OutputStationarySystolicArray.array := tab2 N (pe_at N L c) |};
     OutputStationaryTopLevel.controller :=
       {| OutputStationaryController.arrayWidth := N;
          OutputStationaryController.streamLength := L;
          OutputStationaryController.cycleCount := c |} |}.

(** The snapshot of a design whose registers all hold values. *)
Definition render (v : Value) : string :=
  match toString v with
  | Ok s => s
  | Err _ => EmptyString
  end.

Definition render_pe (pe : OutputStationaryPE.Registers)
  : OutputStationaryTopLevel.PE_dump :=
  {| OutputStationaryTopLevel.X := render (OutputStationaryPE.X pe);
     OutputStationaryTopLevel.W := render (OutputStationaryPE.W pe);
     OutputStationaryTopLevel.Acc := render (OutputStationaryPE.Acc pe) |}.

Definition snapshot_of (this : OutputStationaryTopLevel.t)
  : OutputStationaryTopLevel.Snapshot :=
  {| OutputStationaryTopLevel.regs_X_mem :=
       map render (MatrixRAM.cells (OutputStationaryTopLevel.X_mem this));
     OutputStationaryTopLevel.regs_W_mem :=
       map render (MatrixRAM.cells (OutputStationaryTopLevel.W_mem this));
     OutputStationaryTopLevel.regs_Y_mem :=
       map render (MatrixRAM.cells (OutputStationaryTopLevel.Y_mem this));
     OutputStationaryTopLevel.regs_X_delay :=
       map (map render)
         (DelayRegisterTriangle.registers (OutputStationaryTopLevel.X_delay this));
     OutputStationaryTopLevel.regs_W_delay :=
       map (map render)
         (DelayRegisterTriangle.registers (OutputStationaryTopLevel.W_delay this));
     OutputStationaryTopLevel.regs_systolicArray :=
       map (map render_pe)
         (OutputStationarySystolicArray.array
            (OutputStationaryTopLevel.systolicArray this));
     OutputStationaryTopLevel.regs_controls_cycleCount :=
       OutputStationaryController.cycleCount (OutputStationaryTopLevel.controller this);
     OutputStationaryTopLevel.wires_controlSignals :=
       OutputStationaryController.produceControlSignals
         (OutputStationaryTopLevel.controller this) |}.

(** The number of cycles that [simulate] runs. *)
Definition cycles_of (N L : Z) (numCycles : option Z) : Z :=
  match numCycles with
  | None => 3 * N + L
  | Some n => n
  end.

(** ** The fold step of a PE, in the words of the specification *)

Definition is_matrix_element (v : Value) : bool :=
  match v with
  | SymbolicMatrixElement _ _ _ => true
  | _ => false
  end.

(** The reduction consistency check fails for the left element
    [xn[xi][xj]], the right element [wn[wi][wj]] and the accumulator
    [acc]; [k] is the row index of the right element. *)
Definition consistency_check_fails (xn : string) (xi xj : Z) (wn : string) (wi wj : Z)
    (acc : Value) : Prop :=
  let k := wi in
  xj <> k
  \/ (isConstantZero acc = true /\ k <> 0)
  \/ (exists l r i j, acc = SymbolicPartialSum l r i j k
                      /\ (l, r, i, j) <> (xn, wn, xi, wj))
  \/ (isConstantZero acc = false
      /\ forall l r i j, acc <> SymbolicPartialSum l r i j k).

(** ** Driving the components *)

(** A sequence of [update] calls on a delay triangle, oldest input first. *)
Fixpoint delay_feed (this : DelayRegisterTriangle.t) (inputs : list (list Value))
  : result DelayRegisterTriangle.t :=
  match inputs with
  | [] => Ok this
  | input :: rest =>
      this' <- DelayRegisterTriangle.update this input ;; delay_feed this' rest
  end.

(** The registers of a triangle that held [F] and was fed [inputs]. *)
Definition fed (inputs : list (list Value)) (F : Z -> Z -> Value) (i j : Z) : Value :=
  let len := Z.of_nat (List.length inputs) in
  if j <? len then js_get (nth (Z.to_nat (len - 1 - j)) inputs []) (i + 1)
  else F i (j - len).

(** A systolic array of [N] rows of [N] PEs, and its PE at [(i, j)]. *)
Definition well_shaped (this : OutputStationarySystolicArray.t) : Prop :=
  0 <= OutputStationarySystolicArray.N this
  /\ List.length (OutputStationarySystolicArray.array this)
     = Z.to_nat (OutputStationarySystolicArray.N this)
  /\ Forall (fun row => List.length row = Z.to_nat (OutputStationarySystolicArray.N this))
       (OutputStationarySystolicArray.array this).

Definition cell (a : OutputStationarySystolicArray.Grid) (i j : Z)
  : OutputStationaryPE.Registers :=
  nth (Z.to_nat j) (nth (Z.to_nat i) a []) OutputStationaryPE.new.

(** ** Whole runs, in the words of the specification *)

(** Drain completeness and reduction identity for a design of array
    width [N] and stream length [L]: [simulate(null)] answers [3N + L]
    snapshots and leaves in every cell [(i, j)] of the output memory the
    partial sum of X and W with indices [i] and [j] and count [L]; the
    last snapshot shows each of them stringified. *)
Definition drain_complete (N L : Z) (this : OutputStationaryTopLevel.t) : Prop :=
  exists snapshots final last,
    OutputStationaryTopLevel.simulate this None = Ok (snapshots, final)
    /\ Z.of_nat (List.length snapshots) = 3 * N + L
    /\ nth_error snapshots (Z.to_nat (3 * N + L - 1)) = Some last
    /\ List.length (MatrixRAM.cells (OutputStationaryTopLevel.Y_mem final))
       = Z.to_nat (N * N)
    /\ forall i j, 0 <= i < N -> 0 <= j < N ->
         js_get (MatrixRAM.cells (OutputStationaryTopLevel.Y_mem final)) (i * N + j)
         = SymbolicPartialSum "X" "W" i j L
         /\ nth_error (OutputStationaryTopLevel.regs_Y_mem last) (Z.to_nat (i * N + j))
            = Some ("\sum_{0}^{" ++ string_of_number (L - 1) ++ "} X_{"
                    ++ string_of_number i ++ "i} W_{i" ++ string_of_number j ++ "}")%string.

(** The write-enable of the controller [k] cycles from now. *)
Definition write_enabled_at (controller : OutputStationaryController.t) (k : Z) : bool :=
  OutputStationaryController.Y_memWriteEnable
    (OutputStationaryController.produceControlSignals
       {| OutputStationaryController.arrayWidth :=
            OutputStationaryController.arrayWidth controller;
          OutputStationaryController.streamLength :=
            OutputStationaryController.streamLength controller;
          OutputStationaryController.cycleCount :=
            OutputStationaryController.cycleCount controller + k |}).

(** The run of the concrete scenario: X 2x2, W 2x2, array 2x2. *)
Definition concrete_run
  : result (list OutputStationaryTopLevel.Snapshot * OutputStationaryTopLevel.t) :=
  this <- OutputStationaryTopLevel.new 2 2 2 2 2 2 ;;
  OutputStationaryTopLevel.simulate this None.

Definition zero_pe_dump : OutputStationaryTopLevel.PE_dump :=
  {| OutputStationaryTopLevel.X := "0";
     OutputStationaryTopLevel.W := "0";
     OutputStationaryTopLevel.Acc := "0" |}.

(** The concrete scenario, with [enable7] for the write-enable that
    snapshot 7 shows. *)
Definition concrete_scenario (enable7 : bool) : Prop :=
  exists snapshots final s0 s7,
    concrete_run = Ok (snapshots, final)
    /\ List.length snapshots = 8%nat
    /\ nth_error snapshots 0 = Some s0
    /\ OutputStationaryTopLevel.regs_systolicArray s0
       = [[zero_pe_dump; zero_pe_dump]; [zero_pe_dump; zero_pe_dump]]
    /\ OutputStationaryTopLevel.regs_X_delay s0 = [["0"%string]]
    /\ OutputStationaryTopLevel.regs_W_delay s0 = [["0"%string]]
    /\ OutputStationaryController.X_memReadEnable
         (OutputStationaryTopLevel.wires_controlSignals s0) = true
    /\ OutputStationaryController.X_memReadAddress
         (OutputStationaryTopLevel.wires_controlSignals s0) = 0
    /\ nth_error snapshots 7 = Some s7
    /\ OutputStationaryController.Y_memWriteEnable
         (OutputStationaryTopLevel.wires_controlSignals s7) = enable7
    /\ OutputStationaryTopLevel.regs_Y_mem s7
       = ["\sum_{0}^{1} X_{0i} W_{i0}"; "\sum_{0}^{1} X_{0i} W_{i1}";
          "\sum_{0}^{1} X_{1i} W_{i0}"; "\sum_{0}^{1} X_{1i} W_{i1}"]%string.


(** ** The decoders of the renderer ([hardwareRender.js])

    The renderer reads the indices back from the strings of a snapshot,
    one character at a fixed position each. *)

Module HardwareRender.

(** [parseInt(value[n])]: the digit at position [n], or [None] for
    [NaN] (no character there, or not a digit). *)
Definition parseInt_at (value : string) (n : nat) : option Z :=
  match String.get n value with
  | Some "0"%char => Some 0
  | Some "1"%char => Some 1
  | Some "2"%char => Some 2
  | Some "3"%char => Some 3
  | Some "4"%char => Some 4
  | Some "5"%char => Some 5
  | Some "6"%char => Some 6
  | Some "7"%char => Some 7
  | Some "8"%char => Some 8
  | Some "9"%char => Some 9
  | _ => None
  end.

Record WX : Type := { i : option Z; j : option Z }.

Definition decodeWX (value : string) : WX :=
  {| i := parseInt_at value 3; j := parseInt_at value 4 |}.

Record Sum : Type := { count : option Z; left : option Z; right : option Z }.

Definition decodeSum (value : string) : Sum :=
  {| count := parseInt_at value 10;
     left := parseInt_at value 16;
     right := parseInt_at value 24 |}.

(** The two constants of the component [ProcessingElement]: whether the
    PE is shown active, and the value of its progress bar. *)
Definition isActive (registers : OutputStationaryTopLevel.PE_dump) : bool :=
  negb (OutputStationaryTopLevel.X registers =? "0")%string
  && negb (OutputStationaryTopLevel.W registers =? "0")%string.

Definition progress_count (registers : OutputStationaryTopLevel.PE_dump) : option Z :=
  if (OutputStationaryTopLevel.Acc registers =? "0")%string then Some 0
  else option_map (fun n => n + 1)
         (count (decodeSum (OutputStationaryTopLevel.Acc registers))).

End HardwareRender.

(** ** Shapes and drivers of the components *)

(** [k] evicting updates of a systolic array, one after the other. *)
Fixpoint drain (k : nat) (inputs_X inputs_W : list Value)
    (this : OutputStationarySystolicArray.t)
  : result OutputStationarySystolicArray.t :=
  match k with
  | O => Ok this
  | S m =>
      this' <- OutputStationarySystolicArray.update this inputs_X inputs_W true ;;
      drain m inputs_X inputs_W this'
  end.

(** A delay triangle of [N] chains, chain [i] of [i + 1] registers. *)
Definition well_shaped_triangle (this : DelayRegisterTriangle.t) : Prop :=
  0 <= DelayRegisterTriangle.N this
  /\ List.length (DelayRegisterTriangle.registers this)
     = Z.to_nat (DelayRegisterTriangle.N this)
  /\ forall i, 0 <= i < DelayRegisterTriangle.N this ->
       List.length (nth (Z.to_nat i) (DelayRegisterTriangle.registers this) [])
       = Z.to_nat (i + 1).

(** Register [j] of chain [i]. *)
Definition register (this : DelayRegisterTriangle.t) (i j : Z) : Value :=
  js_get (nth (Z.to_nat i) (DelayRegisterTriangle.registers this) []) j.

(** A memory whose cell array has [row_count * col_count] cells. *)
Definition well_formed_memory (this : MatrixRAM.t) : Prop :=
  0 <= MatrixRAM.row_count this /\ 0 <= MatrixRAM.col_count this
  /\ List.length (MatrixRAM.cells this)
     = Z.to_nat (MatrixRAM.row_count this * MatrixRAM.col_count this).

(** The window that [_checkPosition] accepts. *)
Definition position_ok (this : MatrixRAM.t) (row_index col_offset element_count : Z)
  : Prop :=
  0 <= row_index < MatrixRAM.row_count this
  /\ 0 <= col_offset
  /\ col_offset + element_count <= MatrixRAM.col_count this.

(** The signals of the controller of width [N] and stream length [L] at
    cycle count [c]. *)
Definition signals_at (N L c : Z) : OutputStationaryController.AllControls :=
  OutputStationaryController.produceControlSignals
    {| OutputStationaryController.arrayWidth := N;
       OutputStationaryController.streamLength := L;
       OutputStationaryController.cycleCount := c |}.

(** The accumulator that the PE [F i j] computes, when it computes one. *)
Definition folded (F : Z -> Z -> OutputStationaryPE.Registers) (i j : Z) : Value :=
  match OutputStationaryPE.next_Acc (F i j) with
  | Ok v => v
  | Err _ => Undefined
  end.

(** * Proofs *)

#[local] Arguments Z.mul : simpl never.
#[local] Arguments Z.add : simpl never.
#[local] Arguments Z.sub : simpl never.
#[local] Arguments Z.div : simpl never.
#[local] Arguments Z.modulo : simpl never.
#[local] Arguments Z.min : simpl never.
#[local] Arguments Z.max : simpl never.

(** ** The error monad and the loops *)

Lemma bind_Ok_inv {A B : Type} (m : result A) (k : A -> result B) (b : B) :
  bind m k = Ok b -> exists a, m = Ok a /\ k a = Ok b.
Proof.
  destruct m as [a|e]; simpl; intros H; [eauto | discriminate].
Qed.

Lemma bind_Err_inv {A B : Type} (m : result A) (k : A -> result B) (e : Error) :
  bind m k = Err e -> m = Err e \/ exists a, m = Ok a /\ k a = Err e.
Proof.
  destruct m as [a|e']; simpl; intros H; [right; eauto | left; congruence].
Qed.

Lemma for_up_inv {S : Type} (I : Z -> S -> Prop) (n : nat) :
  forall (lo : Z) (body : Z -> S -> result S) (s : S),
    I lo s ->
    (forall i s, lo <= i < lo + Z.of_nat n -> I i s ->
                 exists s', body i s = Ok s' /\ I (i + 1) s') ->
    exists s', for_up lo n body s = Ok s' /\ I (lo + Z.of_nat n) s'.
Proof.
  induction n as [|n IH]; intros lo body s H0 Hstep.
  - exists s. split; [reflexivity|]. now replace (lo + Z.of_nat 0) with lo by lia.
  - destruct (Hstep lo s ltac:(lia) H0) as [s1 [E1 H1]].
    destruct (IH (lo + 1) body s1 H1) as [s2 [E2 H2]].
    + intros i t Hi. apply Hstep. lia.
    + exists s2. split.
      * simpl. rewrite E1. exact E2.
      * now replace (lo + Z.of_nat (Datatypes.S n)) with (lo + 1 + Z.of_nat n) by lia.
Qed.

Lemma for_down_inv {S : Type} (I : Z -> S -> Prop) (n : nat) :
  forall (lo : Z) (body : Z -> S -> result S) (s : S),
    I (lo + Z.of_nat n) s ->
    (forall i s, lo <= i < lo + Z.of_nat n -> I (i + 1) s ->
                 exists s', body i s = Ok s' /\ I i s') ->
    exists s', for_down lo n body s = Ok s' /\ I lo s'.
Proof.
  induction n as [|n IH]; intros lo body s H0 Hstep.
  - exists s. split; [reflexivity|]. now replace (lo + Z.of_nat 0) with lo in H0 by lia.
  - destruct (Hstep (lo + Z.of_nat n) s ltac:(lia)) as [s1 [E1 H1]].
    + now replace (lo + Z.of_nat n + 1) with (lo + Z.of_nat (Datatypes.S n)) by lia.
    + destruct (IH lo body s1 H1) as [s2 [E2 H2]].
      * intros i t Hi. apply Hstep. lia.
      * exists s2. split; [|exact H2]. simpl. rewrite E1. exact E2.
Qed.

(** A loop whose invariant pins the state down to one value. *)
Lemma for_up_closed {S : Type} (g : Z -> S) (n : nat) (lo : Z)
    (body : Z -> S -> result S) :
  (forall i, lo <= i < lo + Z.of_nat n -> body i (g i) = Ok (g (i + 1))) ->
  for_up lo n body (g lo) = Ok (g (lo + Z.of_nat n)).
Proof.
  intros Hstep.
  destruct (for_up_inv (fun i s => s = g i) n lo body (g lo) eq_refl) as [s [E ->]].
  - intros i s Hi ->. eauto.
  - exact E.
Qed.

Lemma for_down_closed {S : Type} (g : Z -> S) (n : nat) (lo : Z)
    (body : Z -> S -> result S) :
  (forall i, lo <= i < lo + Z.of_nat n -> body i (g (i + 1)) = Ok (g i)) ->
  for_down lo n body (g (lo + Z.of_nat n)) = Ok (g lo).
Proof.
  intros Hstep.
  destruct (for_down_inv (fun i s => s = g i) n lo body _ eq_refl) as [s [E ->]].
  - intros i s Hi ->. eauto.
  - exact E.
Qed.

Lemma mapM_map_Ok {A B C : Type} (f : A -> B) (g : B -> result C) (h : A -> C)
    (l : list A) :
  (forall x, In x l -> g (f x) = Ok (h x)) ->
  mapM g (map f l) = Ok (map h l).
Proof.
  induction l as [|x l IH]; intros H; simpl; [reflexivity|].
  rewrite (H x (or_introl eq_refl)). simpl.
  rewrite IH by (intros y Hy; apply H; now right). reflexivity.
Qed.

Lemma mapM_Err_inv {A B : Type} (f : A -> result B) (l : list A) (e : Error) :
  mapM f l = Err e -> exists x, In x l /\ f x = Err e.
Proof.
  induction l as [|x l IH]; simpl; [discriminate|].
  destruct (f x) as [y|e'] eqn:E; simpl.
  - destruct (mapM f l) as [ys|e'']; simpl; [discriminate|].
    intros H. destruct (IH H) as [z [Hz Ez]]. exists z. auto.
  - intros H. exists x. split; [now left | congruence].
Qed.

(** ** Tabulated arrays *)

Lemma tab_length {A : Type} (n : Z) (f : Z -> A) :
  List.length (tab n f) = Z.to_nat n.
Proof. unfold tab. now rewrite length_map, length_seq. Qed.

Lemma nth_error_tab {A : Type} (n : Z) (f : Z -> A) (k : nat) :
  nth_error (tab n f) k =
  if (k <? Z.to_nat n)%nat then Some (f (Z.of_nat k)) else None.
Proof.
  unfold tab. rewrite nth_error_map, nth_error_seq.
  destruct (k <? Z.to_nat n)%nat; reflexivity.
Qed.

Lemma tab_ext {A : Type} (n : Z) (f g : Z -> A) :
  (forall i, 0 <= i < n -> f i = g i) -> tab n f = tab n g.
Proof.
  intros H. unfold tab. apply map_ext_in. intros a Ha.
  apply in_seq in Ha. apply H. lia.
Qed.

Lemma tab_repeat {A : Type} (n : Z) (x : A) :
  repeat x (Z.to_nat n) = tab n (fun _ => x).
Proof.
  unfold tab. rewrite map_const, length_seq. reflexivity.
Qed.

Lemma array_init_tab {A : Type} (n : Z) (f : Z -> result A) (g : Z -> A) :
  (forall i, 0 <= i < n -> f i = Ok (g i)) ->
  array_init (Z.to_nat n) f = Ok (tab n g).
Proof.
  intros H. unfold array_init, tab.
  rewrite <- (map_id (seq 0 (Z.to_nat n))) at 1.
  apply mapM_map_Ok. intros x Hx. apply in_seq in Hx. apply H. lia.
Qed.

Lemma mapM_tab {A B : Type} (n : Z) (f : Z -> A) (g : A -> result B) (h : Z -> B) :
  (forall i, 0 <= i < n -> g (f i) = Ok (h i)) ->
  mapM g (tab n f) = Ok (tab n h).
Proof.
  intros H. unfold tab. apply mapM_map_Ok. intros x Hx.
  apply in_seq in Hx. apply H. lia.
Qed.

Lemma new_Array_tab (n : Z) :
  0 <= n -> new_Array n = Ok (tab n (fun _ => Undefined)).
Proof.
  intros H. unfold new_Array. destruct (Z.leb_spec 0 n); [|lia].
  now rewrite tab_repeat.
Qed.

Lemma nth_error_replace_nth {A : Type} (l : list A) :
  forall (n k : nat) (v : A),
    nth_error (replace_nth n l v) k =
    if (k =? n)%nat then (if (n <? List.length l)%nat then Some v else None)
    else nth_error l k.
Proof.
  induction l as [|h t IH]; intros n k v.
  - destruct k, n; simpl; try reflexivity.
    now destruct (k =? n)%nat.
  - destruct n as [|n]; destruct k as [|k]; simpl; try reflexivity.
    rewrite IH. reflexivity.
Qed.

Lemma replace_nth_tab {A : Type} (n : Z) (f : Z -> A) (i : Z) (x : A) :
  0 <= i < n ->
  replace_nth (Z.to_nat i) (tab n f) x = tab n (fun k => if k =? i then x else f k).
Proof.
  intros Hi. apply nth_error_ext. intros k.
  rewrite nth_error_replace_nth, !nth_error_tab, tab_length.
  destruct (Nat.eqb_spec k (Z.to_nat i)) as [->|Hk].
  - destruct (Nat.ltb_spec (Z.to_nat i) (Z.to_nat n)); [|lia].
    rewrite Z2Nat.id by lia. now rewrite Z.eqb_refl.
  - destruct (k <? Z.to_nat n)%nat; [|reflexivity].
    destruct (Z.eqb_spec (Z.of_nat k) i); [lia | reflexivity].
Qed.

Lemma js_get_tab (n : Z) (f : Z -> Value) (i : Z) :
  0 <= i < n -> js_get (tab n f) i = f i.
Proof.
  intros Hi. unfold js_get. destruct (Z.ltb_spec i 0); [lia|].
  apply nth_error_nth. rewrite nth_error_tab.
  destruct (Nat.ltb_spec (Z.to_nat i) (Z.to_nat n)); [|lia].
  now rewrite Z2Nat.id by lia.
Qed.

Lemma js_set_tab (n : Z) (f : Z -> Value) (i : Z) (v : Value) :
  0 <= i < n ->
  js_set (tab n f) i v = tab n (fun k => if k =? i then v else f k).
Proof.
  intros Hi. unfold js_set. destruct (Z.ltb_spec i 0); [lia|].
  rewrite tab_length. destruct (Nat.ltb_spec (Z.to_nat i) (Z.to_nat n)); [|lia].
  now apply replace_nth_tab.
Qed.

Lemma js_set_tab_end (n : Z) (f : Z -> Value) (v : Value) :
  0 <= n ->
  js_set (tab n f) n v = tab (n + 1) (fun k => if k =? n then v else f k).
Proof.
  intros Hn. unfold js_set. destruct (Z.ltb_spec n 0); [lia|].
  rewrite tab_length. destruct (Nat.ltb_spec (Z.to_nat n) (Z.to_nat n)); [lia|].
  rewrite Nat.sub_diag. simpl. unfold tab.
  replace (Z.to_nat (n + 1)) with (Z.to_nat n + 1)%nat by lia.
  rewrite seq_app, map_app. simpl. f_equal.
  - apply map_ext_in. intros a Ha. apply in_seq in Ha.
    destruct (Z.eqb_spec (Z.of_nat a) n); [lia | reflexivity].
  - rewrite Z2Nat.id by lia. now rewrite Z.eqb_refl.
Qed.

Lemma js_fill_tab (n : Z) (f : Z -> Value) (v : Value) :
  js_fill (tab n f) v = tab n (fun _ => v).
Proof. unfold js_fill, tab. now rewrite map_map. Qed.

Lemma js_slice_tab (n : Z) (f : Z -> Value) (s e : Z) :
  0 <= s -> s <= e -> e <= n ->
  js_slice (tab n f) s e = tab (e - s) (fun k => f (s + k)).
Proof.
  intros Hs Hse Hen. unfold js_slice. rewrite tab_length.
  destruct (Z.ltb_spec s 0); [lia|]. destruct (Z.ltb_spec e 0); [lia|].
  rewrite Z2Nat.id by lia. rewrite !Z.min_l by lia.
  apply nth_error_ext. intros k.
  rewrite nth_error_firstn, nth_error_skipn, !nth_error_tab.
  destruct (Nat.ltb_spec k (Z.to_nat (e - s))).
  - destruct (Nat.ltb_spec (Z.to_nat s + k) (Z.to_nat n)); [|lia].
    do 2 f_equal. lia.
  - reflexivity.
Qed.

Lemma obj_get_tab {A : Type} (n : Z) (f : Z -> A) (i : Z) :
  0 <= i < n -> obj_get (tab n f) i = Ok (f i).
Proof.
  intros Hi. unfold obj_get. destruct (Z.ltb_spec i 0); [lia|].
  rewrite nth_error_tab. destruct (Nat.ltb_spec (Z.to_nat i) (Z.to_nat n)); [|lia].
  now rewrite Z2Nat.id by lia.
Qed.

Lemma obj_put_tab {A : Type} (n : Z) (f : Z -> A) (i : Z) (x : A) :
  0 <= i < n ->
  obj_put (tab n f) i x = tab n (fun k => if k =? i then x else f k).
Proof.
  intros Hi. unfold obj_put. destruct (Z.ltb_spec i 0); [lia|].
  now apply replace_nth_tab.
Qed.

Lemma tab2_ext {A : Type} (n : Z) (F G : Z -> Z -> A) :
  (forall i j, 0 <= i < n -> 0 <= j < n -> F i j = G i j) -> tab2 n F = tab2 n G.
Proof.
  intros H. unfold tab2. apply tab_ext. intros i Hi.
  apply tab_ext. intros j Hj. now apply H.
Qed.

Lemma tabj_ext {A : Type} (n : Z) (F G : Z -> Z -> A) :
  (forall i j, 0 <= i < n -> 0 <= j <= i -> F i j = G i j) -> tabj n F = tabj n G.
Proof.
  intros H. unfold tabj. apply tab_ext. intros i Hi.
  apply tab_ext. intros j Hj. apply H; lia.
Qed.

(** Case analysis on the integer comparisons of a goal. *)
Ltac zcases :=
  repeat match goal with
    | |- context [Z.eqb ?a ?b] => destruct (Z.eqb_spec a b)
    | |- context [Z.ltb ?a ?b] => destruct (Z.ltb_spec a b)
    | |- context [Z.leb ?a ?b] => destruct (Z.leb_spec a b)
    | |- context [Z.geb ?a ?b] => rewrite (Z.geb_leb a b)
    | |- context [Z.gtb ?a ?b] => rewrite (Z.gtb_ltb a b)
    end;
  simpl; try reflexivity; try lia; try congruence.

(** ** The systolic array *)

Section SystolicArray.
Import OutputStationaryPE OutputStationarySystolicArray.

Lemma pe_get_tab2 (n : Z) (F : Z -> Z -> Registers) (i j : Z) :
  0 <= i < n -> 0 <= j < n -> pe_get (tab2 n F) i j = Ok (F i j).
Proof.
  intros Hi Hj. unfold pe_get, tab2. rewrite obj_get_tab by lia. simpl.
  now apply obj_get_tab.
Qed.

Lemma pe_put_tab2 (n : Z) (F : Z -> Z -> Registers) (i j : Z) (x : Registers) :
  0 <= i < n -> 0 <= j < n ->
  pe_put (tab2 n F) i j x =
  tab2 n (fun i' j' => if (i' =? i) && (j' =? j) then x else F i' j').
Proof.
  intros Hi Hj. unfold pe_put, tab2. rewrite obj_get_tab by lia.
  rewrite obj_put_tab by lia. rewrite obj_put_tab by lia.
  apply tab_ext. intros i' Hi'. destruct (Z.eqb_spec i' i) as [->|Hne]; simpl.
  - reflexivity.
  - reflexivity.
Qed.

Lemma produce_output_evict (n : Z) (F : Z -> Z -> Registers) :
  0 <= n ->
  produce_output {| N := n; array := tab2 n F |} true =
  Ok (tab n (fun j => Acc (F (n - 1) j))).
Proof.
  intros Hn. unfold produce_output. simpl.
  rewrite new_Array_tab by lia. simpl.
  pose (g := fun m : Z =>
               tab n (fun k => if k <? m then Acc (F (n - 1) k) else Undefined)).
  replace (tab n (fun _ => Undefined)) with (g 0)
    by (apply tab_ext; intros; zcases).
  rewrite (for_up_closed g).
  - f_equal. apply tab_ext. intros. zcases.
  - intros i Hi. rewrite pe_get_tab2 by lia. simpl. unfold g.
    rewrite js_set_tab by lia. f_equal. apply tab_ext. intros. zcases.
Qed.

Lemma produce_output_idle (n : Z) (a : Grid) :
  0 <= n ->
  produce_output {| N := n; array := a |} false =
  Ok (tab n (fun _ => ConstantInteger 0)).
Proof.
  intros Hn. unfold produce_output. simpl.
  rewrite new_Array_tab by lia. simpl.
  pose (g := fun m : Z =>
               tab n (fun k => if k <? m then ConstantInteger 0 else Undefined)).
  replace (tab n (fun _ => Undefined)) with (g 0)
    by (apply tab_ext; intros; zcases).
  rewrite (for_up_closed g).
  - f_equal. apply tab_ext. intros. zcases.
  - intros i Hi. unfold g.
    rewrite js_set_tab by lia. f_equal. apply tab_ext. intros. zcases.
Qed.

Lemma evict_column_tab2 (n : Z) (F : Z -> Z -> Registers) (j : Z) :
  0 <= j < n ->
  evict_column n j (tab2 n F) =
  Ok (tab2 n (fun i' j' => if j' =? j then evicted F i' j' else F i' j')).
Proof.
  intros Hj. unfold evict_column.
  pose (g := fun m : Z =>
               tab2 n (fun i' j' => if (j' =? j) && (m <=? i')
                                    then evicted F i' j' else F i' j')).
  replace (tab2 n F) with (g (1 + Z.of_nat (Z.to_nat (n - 1))))
    by (apply tab2_ext; intros; zcases).
  rewrite (for_down_closed g).
  - simpl. unfold g. rewrite pe_get_tab2 by lia. simpl.
    rewrite pe_put_tab2 by lia. f_equal. apply tab2_ext. intros i' j' Hi' Hj'.
    unfold evicted. zcases.
  - intros i Hi. unfold g. rewrite !pe_get_tab2 by lia. simpl.
    rewrite pe_put_tab2 by lia. f_equal. apply tab2_ext. intros i' j' Hi' Hj'.
    unfold evicted. zcases; subst; zcases.
Qed.

Lemma update_evict (n : Z) (F : Z -> Z -> Registers) (inputs_X inputs_W : list Value) :
  0 <= n ->
  update {| N := n; array := tab2 n F |} inputs_X inputs_W true =
  Ok {| N := n; array := tab2 n (evicted F) |}.
Proof.
  intros Hn. unfold update. simpl.
  pose (g := fun m : Z =>
               tab2 n (fun i' j' => if j' <? m then evicted F i' j' else F i' j')).
  replace (tab2 n F) with (g 0) by (apply tab2_ext; intros; zcases).
  rewrite (for_up_closed g).
  - simpl. do 2 f_equal. apply tab2_ext. intros. zcases.
  - intros j Hj. unfold g.
    erewrite evict_column_tab2 by lia. f_equal. apply tab2_ext. intros.
    unfold evicted. zcases.
Qed.

Lemma update_flow (n : Z) (F : Z -> Z -> Registers) (A : Z -> Z -> Value)
    (inputs_X inputs_W : list Value) :
  0 <= n ->
  (forall i j, 0 <= i < n -> 0 <= j < n -> next_Acc (F i j) = Ok (A i j)) ->
  update {| N := n; array := tab2 n F |} inputs_X inputs_W false =
  Ok {| N := n; array := tab2 n (flowed inputs_X inputs_W F A) |}.
Proof.
  intros Hn HA. unfold update. simpl.
  pose (new := flowed inputs_X inputs_W F A).
  pose (g := fun m : Z =>
               tab2 n (fun i' j' => if m <=? i' then new i' j' else F i' j')).
  replace (tab2 n F) with (g (0 + Z.of_nat (Z.to_nat n)))
    by (apply tab2_ext; intros; zcases).
  rewrite (for_down_closed g).
  - simpl. do 2 f_equal. apply tab2_ext. intros. zcases.
  - intros i Hi.
    pose (h := fun m : Z =>
                 tab2 n (fun i' j' =>
                           if (i <? i') || ((i' =? i) && (m <=? j'))
                           then new i' j' else F i' j')).
    replace (g (i + 1)) with (h (0 + Z.of_nat (Z.to_nat n)))
      by (apply tab2_ext; intros; zcases).
    rewrite (for_down_closed h).
    + f_equal. apply tab2_ext. intros. zcases.
    + intros j Hj. unfold flow_cell, h.
      rewrite pe_get_tab2 by lia. simpl.
      assert (EX : (if j =? 0 then Ok (js_get inputs_X i)
                    else left <- pe_get
                           (tab2 n (fun i' j' =>
                              if (i <? i') || ((i' =? i) && (j + 1 <=? j'))
                              then new i' j' else F i' j')) i (j - 1) ;;
                         Ok (X left)) = Ok (X (new i j))).
      { unfold new, flowed. simpl. destruct (Z.eqb_spec j 0); [reflexivity|].
        rewrite pe_get_tab2 by lia. simpl. zcases. }
      assert (EW : (if i =? 0 then Ok (js_get inputs_W j)
                    else up <- pe_get
                           (tab2 n (fun i' j' =>
                              if (i <? i') || ((i' =? i) && (j + 1 <=? j'))
                              then new i' j' else F i' j')) (i - 1) j ;;
                         Ok (W up)) = Ok (W (new i j))).
      { unfold new, flowed. simpl. destruct (Z.eqb_spec i 0); [reflexivity|].
        rewrite pe_get_tab2 by lia. simpl. zcases. }
      assert (EP : (if (i <? i) || ((i =? i) && (j + 1 <=? j))
                    then new i j else F i j) = F i j) by zcases.
      assert (EN : {| X := X (new i j); W := W (new i j); Acc := A i j |} = new i j)
        by reflexivity.
      clearbody new.
      rewrite EX, EW, EP. unfold OutputStationaryPE.update, bind at 1 2.
      rewrite HA by lia. unfold bind. rewrite EN.
      rewrite pe_put_tab2 by lia. f_equal. apply tab2_ext. intros i' j' Hi' Hj'.
      zcases.
Qed.

End SystolicArray.

(** ** The delay-register triangle *)

Section DelayTriangle.
Import DelayRegisterTriangle.

Lemma obj_put_tabj {A : Type} (n : Z) (F : Z -> Z -> A) (i : Z) (h : Z -> A) :
  0 <= i < n ->
  obj_put (tabj n F) i (tab (i + 1) h) =
  tabj n (fun i' => if i' =? i then h else F i').
Proof.
  intros Hi. unfold tabj. rewrite obj_put_tab by lia.
  apply tab_ext. intros i' Hi'. destruct (Z.eqb_spec i' i); congruence.
Qed.

Lemma shift_row_tabj (n : Z) (F : Z -> Z -> Value) (input : list Value) (i : Z) :
  0 <= i < n ->
  shift_row input i (tabj n F) =
  Ok (tabj n (fun i' j' => if i' =? i then shifted input F i' j' else F i' j')).
Proof.
  intros Hi. unfold shift_row.
  pose (g := fun m : Z =>
               tabj n (fun i' j' => if (i' =? i) && (m <=? j')
                                    then F i' (j' - 1) else F i' j')).
  replace (tabj n F) with (g (1 + Z.of_nat (Z.to_nat i)))
    by (apply tabj_ext; intros; zcases).
  rewrite (for_down_closed g).
  - simpl. unfold g, tabj at 1. rewrite obj_get_tab by lia. simpl.
    rewrite js_set_tab by lia. fold (tabj n (fun i' j' : Z =>
      if (i' =? i) && (1 <=? j') then F i' (j' - 1) else F i' j')).
    rewrite obj_put_tabj by lia. f_equal. apply tabj_ext. intros i' j' Hi' Hj'.
    unfold shifted. zcases.
  - intros j Hj. unfold g, tabj at 1. rewrite obj_get_tab by lia. simpl.
    rewrite js_get_tab by lia. rewrite js_set_tab by lia.
    fold (tabj n (fun i' j' : Z =>
      if (i' =? i) && (j + 1 <=? j') then F i' (j' - 1) else F i' j')).
    rewrite obj_put_tabj by lia. f_equal. apply tabj_ext. intros i' j' Hi' Hj'.
    zcases.
Qed.

Lemma update_tabj (n : Z) (F : Z -> Z -> Value) (input : list Value) :
  Z.of_nat (List.length input) = n + 1 ->
  update {| N := n; registers := tabj n F |} input =
  Ok {| N := n; registers := tabj n (shifted input F) |}.
Proof.
  intros Hlen. unfold update, check_length. simpl.
  rewrite Hlen, Z.eqb_refl. simpl.
  pose (g := fun m : Z =>
               tabj n (fun i' j' => if i' <? m then shifted input F i' j'
                                    else F i' j')).
  replace (tabj n F) with (g 0) by (apply tabj_ext; intros; zcases).
  rewrite (for_up_closed g).
  - simpl. do 2 f_equal. apply tabj_ext. intros. zcases.
  - intros i Hi. unfold g. rewrite shift_row_tabj by lia. f_equal.
    apply tabj_ext. intros i' j' Hi' Hj'. unfold shifted. zcases.
Qed.

Lemma produce_output_tabj (n : Z) (F : Z -> Z -> Value) (input : list Value) :
  0 <= n ->
  Z.of_nat (List.length input) = n + 1 ->
  produce_output {| N := n; registers := tabj n F |} input =
  Ok (tab (n + 1) (fun i => if i =? 0 then js_get input 0 else F (i - 1) (i - 1))).
Proof.
  intros Hn Hlen. unfold produce_output, check_length. simpl.
  rewrite Hlen, Z.eqb_refl. simpl.
  rewrite new_Array_tab by lia. simpl. rewrite js_set_tab by lia.
  pose (g := fun m : Z =>
               tab (n + 1) (fun k => if k =? 0 then js_get input 0
                                     else if k <? m then F (k - 1) (k - 1)
                                          else Undefined)).
  replace (tab (n + 1) (fun k => if k =? 0 then js_get input 0 else Undefined))
    with (g 1) by (apply tab_ext; intros; zcases).
  rewrite (for_up_closed g).
  - f_equal. apply tab_ext. intros. zcases.
  - intros i Hi. unfold tabj. rewrite obj_get_tab by lia. simpl.
    rewrite js_get_tab by lia. unfold g. rewrite js_set_tab by lia.
    f_equal. apply tab_ext. intros. zcases.
Qed.

Lemma new_tabj (n : Z) :
  0 <= n ->
  new n = Ok {| N := n; registers := tabj n (fun _ _ => ConstantInteger 0) |}.
Proof.
  intros Hn. unfold new. rewrite new_Array_tab by lia. simpl.
  rewrite (array_init_tab n _ (fun i => tab (i + 1) (fun _ => ConstantInteger 0))).
  - reflexivity.
  - intros i Hi. rewrite new_Array_tab by lia. simpl.
    pose (g := fun m : Z =>
                 tab (Z.max i m) (fun k => if k <? m then ConstantInteger 0
                                           else Undefined)).
    replace (tab i (fun _ => Undefined)) with (g 0)
      by (unfold g; rewrite Z.max_l by lia; apply tab_ext; intros; zcases).
    rewrite (for_up_closed g).
    + f_equal. unfold g. rewrite Z.max_r by lia.
      replace (0 + Z.of_nat (Z.to_nat (i + 1))) with (i + 1) by lia.
      apply tab_ext. intros. zcases.
    + intros j Hj. unfold g. f_equal.
      destruct (Z.eq_dec j i) as [->|Hne].
      * rewrite Z.max_l by lia. rewrite js_set_tab_end by lia.
        rewrite Z.max_r by lia. apply tab_ext. intros. zcases.
      * rewrite !Z.max_l by lia. rewrite js_set_tab by lia.
        apply tab_ext. intros. zcases.
Qed.

End DelayTriangle.

(** ** The row-addressable memory *)

Section Memory.
Import MatrixRAM.

Lemma cell_index (cols i j : Z) :
  0 <= j < cols -> (i * cols + j) / cols = i /\ (i * cols + j) mod cols = j.
Proof.
  intros Hj. split.
  - symmetry. apply (Z.div_unique_pos _ _ i j); lia.
  - symmetry. apply (Z.mod_unique_pos _ _ i j); lia.
Qed.

Lemma cell_in_range (rows cols i j : Z) :
  0 <= i < rows -> 0 <= j < cols -> 0 <= i * cols + j < rows * cols.
Proof. intros Hi Hj. nia. Qed.

Lemma new_symbolic (rows cols : Z) (name : string) (a b : Z) (transposed : bool) :
  0 <= rows -> 0 <= cols ->
  new rows cols (SymbolicMatrixElement name a b) transposed =
  Ok {| row_count := rows; col_count := cols;
        cells := tab (rows * cols)
                   (fun idx => generated name transposed (idx / cols) (idx mod cols)) |}.
Proof.
  intros Hr Hc. unfold new. rewrite new_Array_tab by nia. simpl.
  pose (elem := fun idx => generated name transposed (idx / cols) (idx mod cols)).
  pose (G := fun m : Z =>
               tab (rows * cols) (fun idx => if idx <? m * cols then elem idx
                                             else Undefined)).
  replace (tab (rows * cols) (fun _ => Undefined)) with (G 0)
    by (apply tab_ext; intros; zcases).
  rewrite (for_up_closed G).
  - simpl. do 2 f_equal. apply tab_ext. intros idx Hidx.
    replace (0 + Z.of_nat (Z.to_nat rows)) with rows by lia. zcases.
  - intros i Hi.
    pose (g := fun m : Z =>
                 tab (rows * cols) (fun idx => if idx <? i * cols + m then elem idx
                                               else Undefined)).
    replace (G i) with (g 0) by (apply tab_ext; intros; zcases).
    rewrite (for_up_closed g).
    + f_equal. apply tab_ext. intros. zcases.
    + intros j Hj. unfold g. f_equal.
      rewrite js_set_tab by (apply cell_in_range; lia).
      apply tab_ext. intros idx Hidx.
      destruct (Z.eqb_spec idx (i * cols + j)) as [->|Hne].
      * destruct (cell_index cols i j ltac:(lia)) as [Ed Em].
        unfold elem. rewrite Ed, Em. unfold generated. zcases.
      * zcases.
Qed.

Lemma new_constant (rows cols v : Z) (transposed : bool) :
  0 <= rows * cols ->
  new rows cols (ConstantInteger v) transposed =
  Ok {| row_count := rows; col_count := cols;
        cells := tab (rows * cols) (fun _ => ConstantInteger v) |}.
Proof.
  intros H. unfold new. rewrite new_Array_tab by lia. simpl.
  pose (g := fun m : Z =>
               tab (rows * cols) (fun idx => if idx <? m then ConstantInteger v
                                             else Undefined)).
  replace (tab (rows * cols) (fun _ => Undefined)) with (g 0)
    by (apply tab_ext; intros; zcases).
  rewrite (for_up_closed g).
  - simpl. do 2 f_equal. apply tab_ext. intros. zcases.
  - intros i Hi. unfold g. rewrite js_set_tab by lia. f_equal.
    apply tab_ext. intros. zcases.
Qed.

Lemma readRow_tab (rows cols : Z) (f : Z -> Value) (r : Z) :
  0 <= r < rows -> 0 <= cols ->
  readRow {| row_count := rows; col_count := cols; cells := tab (rows * cols) f |}
    r 0 cols =
  Ok (tab cols (fun j => f (r * cols + j))).
Proof.
  intros Hr Hc. unfold readRow, _checkPosition. simpl.
  destruct (Z.ltb_spec r 0); [lia|]. rewrite Z.geb_leb.
  destruct (Z.leb_spec rows r); [lia|]. simpl. rewrite Z.gtb_ltb, Z.add_0_l.
  destruct (Z.ltb_spec cols cols); [lia|]. simpl.
  rewrite js_slice_tab by nia.
  replace (r * cols + 0 + cols - (r * cols + 0)) with cols by lia.
  f_equal. apply tab_ext. intros j Hj. f_equal. lia.
Qed.

Lemma writeRow_tab (rows cols : Z) (f : Z -> Value) (r : Z) (row : list Value) :
  0 <= r < rows -> 0 <= cols ->
  writeRow {| row_count := rows; col_count := cols; cells := tab (rows * cols) f |}
    r 0 cols row =
  Ok {| row_count := rows; col_count := cols;
        cells := tab (rows * cols) (row_written cols r row f) |}.
Proof.
  intros Hr Hc. unfold writeRow, _checkPosition. simpl.
  destruct (Z.ltb_spec r 0); [lia|]. rewrite Z.geb_leb.
  destruct (Z.leb_spec rows r); [lia|]. simpl. rewrite Z.gtb_ltb, Z.add_0_l.
  destruct (Z.ltb_spec cols cols); [lia|]. simpl.
  pose (g := fun m : Z =>
               tab (rows * cols)
                 (fun idx => if (r * cols <=? idx) && (idx <? r * cols + m)
                             then js_get row (idx - r * cols) else f idx)).
  replace (tab (rows * cols) f) with (g 0) by (apply tab_ext; intros; zcases).
  rewrite (for_up_closed g).
  - simpl. do 2 f_equal. apply tab_ext. intros. unfold row_written. zcases.
  - intros i Hi. unfold g. f_equal.
    rewrite js_set_tab by (pose proof (cell_in_range rows cols r i); lia).
    apply tab_ext. intros idx Hidx. zcases.
    f_equal. lia.
Qed.

End Memory.

Section MemoryMatrix.
Import MatrixRAM.

Lemma readRow_matrix (rows cols : Z) (y : Z -> Z -> Value) (r : Z) :
  0 <= r < rows -> 0 <= cols ->
  readRow {| row_count := rows; col_count := cols; cells := matrix rows cols y |}
    r 0 cols =
  Ok (tab cols (y r)).
Proof.
  intros Hr Hc. unfold matrix. rewrite readRow_tab by lia. f_equal.
  apply tab_ext. intros j Hj. unfold flat.
  destruct (cell_index cols r j Hj) as [-> ->]. reflexivity.
Qed.

Lemma writeRow_matrix (rows cols : Z) (y : Z -> Z -> Value) (r : Z)
    (row : list Value) :
  0 <= r < rows -> 0 <= cols ->
  writeRow {| row_count := rows; col_count := cols; cells := matrix rows cols y |}
    r 0 cols row =
  Ok {| row_count := rows; col_count := cols;
        cells := matrix rows cols (fun i j => if i =? r then js_get row j else y i j) |}.
Proof.
  intros Hr Hc. unfold matrix. rewrite writeRow_tab by lia. do 2 f_equal.
  apply tab_ext. intros idx Hidx. unfold row_written, flat.
  assert (Hpos : 0 < cols) by nia.
  pose proof (Z.div_mod idx cols ltac:(lia)) as Hdm.
  pose proof (Z.mod_pos_bound idx cols Hpos) as Hm.
  destruct (Z.eqb_spec (idx / cols) r) as [E|E].
  - rewrite <- E.
    destruct (Z.leb_spec (idx / cols * cols) idx); [|nia].
    destruct (Z.ltb_spec idx (idx / cols * cols + cols)); [|nia].
    simpl. f_equal. lia.
  - destruct (Z.leb_spec (r * cols) idx); simpl; [|reflexivity].
    destruct (Z.ltb_spec idx (r * cols + cols)); [|reflexivity].
    exfalso. apply E. nia.
Qed.

End MemoryMatrix.

(** ** The top-level design, cycle by cycle *)

Ltac closed_forms :=
  unfold pe_at, acc_at, y_at, X_stream, W_stream, partial_sum, generated, zero,
    drainStart, evicted, flowed, shifted, OutputStationaryPE.set_Acc in *;
  simpl;
  zcases; try (f_equal; lia); try (do 2 f_equal; lia).

Section TopLevel.
Import OutputStationaryTopLevel.

Variables N L : Z.
Hypothesis HN : 1 <= N.
Hypothesis HL : 0 <= L.

Lemma next_Acc_pe_at (c i j : Z) :
  0 <= c < drainStart N L -> 0 <= i < N -> 0 <= j < N ->
  OutputStationaryPE.next_Acc (pe_at N L c i j) = Ok (acc_at N L (c + 1) i j).
Proof.
  intros Hc Hi Hj. unfold OutputStationaryPE.next_Acc, pe_at. simpl.
  unfold X_stream, W_stream. set (k := c - 1 - i - j).
  destruct (Z.leb_spec 0 k) as [Hk0|Hk0]; simpl.
  - destruct (Z.ltb_spec k L) as [HkL|HkL]; simpl.
    + unfold OutputStationaryPE.validate. rewrite Z.eqb_refl. simpl.
      unfold acc_at, drainStart in *. fold k.
      destruct (Z.leb_spec c (2 * N - 1 + L)); [|lia].
      destruct (Z.leb_spec (c + 1) (2 * N - 1 + L)); [|lia].
      rewrite Z.min_l by lia.
      replace (Z.min (c + 1 - 1 - i - j) L) with (k + 1) by lia.
      unfold partial_sum.
      destruct (Z.leb_spec (k + 1) 0); [lia|].
      destruct (Z.leb_spec k 0).
      * simpl. destruct (Z.eqb_spec k 0); [reflexivity | lia].
      * simpl. rewrite !Z.eqb_refl. reflexivity.
    + unfold zero. simpl. f_equal. subst k. closed_forms.
  - unfold zero. simpl. f_equal. subst k. closed_forms.
Qed.

Lemma X_in_closed (c : Z) :
  0 <= c ->
  (if c <? L
   then MatrixRAM.readRow (X_mem (state_at N L c)) c 0 N
   else zero_row (state_at N L c)) = Ok (tab N (X_stream L c)).
Proof.
  intros Hc. destruct (Z.ltb_spec c L).
  - simpl. rewrite readRow_matrix by lia. f_equal.
    apply tab_ext. intros. closed_forms.
  - unfold zero_row. simpl. rewrite new_Array_tab by lia. simpl.
    rewrite js_fill_tab. f_equal. apply tab_ext. intros. closed_forms.
Qed.

Lemma W_in_closed (c : Z) :
  0 <= c ->
  (if c <? L
   then MatrixRAM.readRow (W_mem (state_at N L c)) c 0 N
   else zero_row (state_at N L c)) = Ok (tab N (W_stream L c)).
Proof.
  intros Hc. destruct (Z.ltb_spec c L).
  - simpl. rewrite readRow_matrix by lia. f_equal.
    apply tab_ext. intros. closed_forms.
  - unfold zero_row. simpl. rewrite new_Array_tab by lia. simpl.
    rewrite js_fill_tab. f_equal. apply tab_ext. intros. closed_forms.
Qed.

Lemma tab_N_length (f : Z -> Value) :
  Z.of_nat (List.length (tab N f)) = N - 1 + 1.
Proof. rewrite tab_length. lia. Qed.

Lemma X_delayed_closed (c : Z) :
  DelayRegisterTriangle.produce_output (X_delay (state_at N L c))
    (tab N (X_stream L c)) = Ok (tab N (fun i => X_stream L (c - i) i)).
Proof.
  simpl. rewrite produce_output_tabj by (try apply tab_N_length; lia).
  replace (N - 1 + 1) with N by lia. f_equal. apply tab_ext. intros i Hi.
  rewrite js_get_tab by lia.
  destruct (Z.eqb_spec i 0) as [->|Hne]; f_equal; lia.
Qed.

Lemma W_delayed_closed (c : Z) :
  DelayRegisterTriangle.produce_output (W_delay (state_at N L c))
    (tab N (W_stream L c)) = Ok (tab N (fun i => W_stream L (c - i) i)).
Proof.
  simpl. rewrite produce_output_tabj by (try apply tab_N_length; lia).
  replace (N - 1 + 1) with N by lia. f_equal. apply tab_ext. intros i Hi.
  rewrite js_get_tab by lia.
  destruct (Z.eqb_spec i 0) as [->|Hne]; f_equal; lia.
Qed.

Lemma X_delay_closed (c : Z) :
  DelayRegisterTriangle.update (X_delay (state_at N L c)) (tab N (X_stream L c)) =
  Ok (X_delay (state_at N L (c + 1))).
Proof.
  simpl. rewrite update_tabj by apply tab_N_length. do 2 f_equal.
  apply tabj_ext. intros i j Hi Hj. unfold shifted.
  rewrite js_get_tab by lia.
  destruct (Z.eqb_spec j 0) as [->|Hne]; f_equal; lia.
Qed.

Lemma W_delay_closed (c : Z) :
  DelayRegisterTriangle.update (W_delay (state_at N L c)) (tab N (W_stream L c)) =
  Ok (W_delay (state_at N L (c + 1))).
Proof.
  simpl. rewrite update_tabj by apply tab_N_length. do 2 f_equal.
  apply tabj_ext. intros i j Hi Hj. unfold shifted.
  rewrite js_get_tab by lia.
  destruct (Z.eqb_spec j 0) as [->|Hne]; f_equal; lia.
Qed.

End TopLevel.

Section TopLevelStep.
Import OutputStationaryTopLevel.

Variables N L : Z.
Hypothesis HN : 1 <= N.
Hypothesis HL : 0 <= L.

Lemma Y_out_closed (c : Z) :
  OutputStationarySystolicArray.produce_output (systolicArray (state_at N L c))
    (c >=? drainStart N L) = Ok (tab N (Y_out_at N L c)).
Proof.
  rewrite Z.geb_leb. unfold Y_out_at. simpl.
  destruct (Z.leb_spec (drainStart N L) c).
  - rewrite produce_output_evict by lia. reflexivity.
  - rewrite produce_output_idle by lia. reflexivity.
Qed.

Lemma Y_mem_closed (c : Z) :
  0 <= c ->
  (if (c >=? drainStart N L) && (c <? drainStart N L + N)
   then MatrixRAM.writeRow (Y_mem (state_at N L c))
          (N - 1 - (c - drainStart N L)) 0 N (tab N (Y_out_at N L c))
   else Ok (Y_mem (state_at N L c))) = Ok (Y_mem (state_at N L (c + 1))).
Proof.
  intros Hc. rewrite Z.geb_leb. simpl.
  destruct (Z.leb_spec (drainStart N L) c) as [HD|HD]; simpl.
  - destruct (Z.ltb_spec c (drainStart N L + N)) as [HE|HE].
    + rewrite writeRow_matrix by lia. do 2 f_equal. unfold matrix.
      apply tab_ext. intros idx Hidx. unfold flat.
      assert (Hq : 0 <= idx / N < N).
      { split; [apply Z.div_pos; lia | apply Z.div_lt_upper_bound; lia]. }
      pose proof (Z.mod_pos_bound idx N ltac:(lia)) as Hm.
      destruct (Z.eqb_spec (idx / N) (N - 1 - (c - drainStart N L))) as [E|E].
      * rewrite js_get_tab by lia. rewrite E. unfold Y_out_at.
        clear E Hq Hidx. closed_forms.
      * clear Hidx. closed_forms.
    + do 2 f_equal. unfold matrix. apply tab_ext. intros idx Hidx. unfold flat.
      assert (Hq : 0 <= idx / N < N).
      { split; [apply Z.div_pos; lia | apply Z.div_lt_upper_bound; lia]. }
      clear Hidx. closed_forms.
  - do 2 f_equal. unfold matrix. apply tab_ext. intros idx Hidx. unfold flat.
    closed_forms.
Qed.

Lemma systolicArray_closed (c : Z) :
  0 <= c ->
  OutputStationarySystolicArray.update (systolicArray (state_at N L c))
    (tab N (fun i => X_stream L (c - i) i)) (tab N (fun i => W_stream L (c - i) i))
    (c >=? drainStart N L) = Ok (systolicArray (state_at N L (c + 1))).
Proof.
  intros Hc. rewrite Z.geb_leb. simpl.
  destruct (Z.leb_spec (drainStart N L) c) as [HD|HD].
  - rewrite update_evict by lia. do 2 f_equal.
    apply tab2_ext. intros i j Hi Hj. closed_forms.
  - rewrite (update_flow N (pe_at N L c) (acc_at N L (c + 1))) by
      (try lia; intros; apply next_Acc_pe_at; lia).
    do 2 f_equal. apply tab2_ext. intros i j Hi Hj. unfold flowed, pe_at.
    simpl. f_equal.
    + destruct (Z.eqb_spec j 0) as [->|Hne].
      * rewrite js_get_tab by lia. f_equal. lia.
      * f_equal. lia.
    + destruct (Z.eqb_spec i 0) as [->|Hne].
      * rewrite js_get_tab by lia. f_equal. lia.
      * f_equal. lia.
Qed.

Lemma update_state_at (c : Z) :
  0 <= c -> update (state_at N L c) = Ok (state_at N L (c + 1)).
Proof.
  intros Hc. unfold update.
  cbn [OutputStationaryController.X_memReadEnable
       OutputStationaryController.X_memReadAddress
       OutputStationaryController.W_memReadEnable
       OutputStationaryController.W_memReadAddress
       OutputStationaryController.Y_memWriteEnable
       OutputStationaryController.Y_memWriteAddress
       OutputStationaryController.movesOutputDown
       OutputStationaryController.produceControlSignals].
  change (OutputStationaryController.cycleCount (controller (state_at N L c))) with c.
  change (OutputStationaryController.streamLength (controller (state_at N L c))) with L.
  change (OutputStationaryController.arrayWidth (controller (state_at N L c))) with N.
  change (arrayWidth (state_at N L c)) with N.
  change (2 * N - 1 + L) with (drainStart N L).
  rewrite (X_in_closed N L HN c Hc). cbn [bind].
  rewrite (W_in_closed N L HN c Hc). cbn [bind].
  rewrite (X_delayed_closed N L HN c). cbn [bind].
  rewrite (X_delay_closed N L HN c). cbn [bind].
  rewrite (W_delayed_closed N L HN c). cbn [bind].
  rewrite (W_delay_closed N L HN c). cbn [bind].
  rewrite Y_out_closed. cbn [bind].
  rewrite Y_mem_closed by lia. cbn [bind].
  rewrite systolicArray_closed by lia. cbn [bind].
  reflexivity.
Qed.

End TopLevelStep.

(** ** Construction and whole runs *)

Section Runs.
Import OutputStationaryTopLevel.

Lemma systolicArray_new (n : Z) :
  0 <= n ->
  OutputStationarySystolicArray.new n =
  Ok {| OutputStationarySystolicArray.N := n;
        OutputStationarySystolicArray.array :=
          tab2 n (fun _ _ => OutputStationaryPE.new) |}.
Proof.
  intros Hn. unfold OutputStationarySystolicArray.new.
  rewrite new_Array_tab by lia. cbn [bind].
  rewrite (array_init_tab n _ (fun _ => tab n (fun _ => OutputStationaryPE.new))).
  - reflexivity.
  - intros i Hi. cbn [bind]. now apply array_init_tab.
Qed.

Lemma new_state_at (N L : Z) :
  1 <= N -> 0 <= L -> new N L L N N N = Ok (state_at N L 0).
Proof.
  intros HN HL. unfold new. rewrite !Z.eqb_refl. cbn [negb orb].
  rewrite !new_symbolic by lia. cbn [bind].
  rewrite new_constant by nia. cbn [bind].
  rewrite new_tabj by lia. cbn [bind].
  rewrite systolicArray_new by lia. cbn [bind].
  unfold state_at, OutputStationaryController.new. f_equal. f_equal.
  - f_equal. unfold matrix. apply tab_ext. intros. unfold flat. closed_forms.
  - f_equal. apply tabj_ext. intros. closed_forms.
  - f_equal. apply tabj_ext. intros. closed_forms.
  - f_equal. apply tab2_ext. intros. unfold OutputStationaryPE.new. closed_forms.
Qed.

(** A construction that succeeds is the one of a square array of width
    at least 1 and a stream of length at least 0. *)
Lemma new_Ok_inv (xr xc wr wc sr sc : Z) (st : t) :
  new xr xc wr wc sr sc = Ok st ->
  xr = sr /\ wc = sr /\ sc = sr /\ wr = xc /\ 1 <= sr /\ 0 <= xc /\
  st = state_at sr xc 0.
Proof.
  unfold new. intros H.
  destruct (Z.eqb_spec xc wr) as [<-|]; [|discriminate]. cbn [negb] in H.
  destruct (Z.eqb_spec xr sr) as [->|]; [|discriminate].
  destruct (Z.eqb_spec wc sc) as [->|]; [|discriminate].
  destruct (Z.eqb_spec sr sc) as [<-|]; [|discriminate]. cbn [negb orb] in H.
  assert (HN : 1 <= sr).
  { destruct (Z.le_gt_cases 1 sr) as [|Hlt]; [assumption|exfalso].
    apply bind_Ok_inv in H. destruct H as [? [_ H]].
    apply bind_Ok_inv in H. destruct H as [? [_ H]].
    apply bind_Ok_inv in H. destruct H as [? [_ H]].
    apply bind_Ok_inv in H. destruct H as [? [H _]].
    unfold DelayRegisterTriangle.new, new_Array in H.
    destruct (Z.leb_spec 0 (sr - 1)); [lia | discriminate]. }
  assert (HL : 0 <= xc).
  { destruct (Z.le_gt_cases 0 xc) as [|Hlt]; [assumption|exfalso].
    apply bind_Ok_inv in H. destruct H as [? [H _]].
    unfold MatrixRAM.new, new_Array in H.
    destruct (Z.leb_spec 0 (xc * sr)); [nia | discriminate]. }
  pose proof (new_state_at sr xc HN HL) as E. unfold new in E.
  rewrite !Z.eqb_refl in E. cbn [negb orb] in E.
  rewrite E in H. injection H as <-. repeat split; auto.
Qed.

Lemma run_state_at (N L : Z) (n : nat) :
  1 <= N -> 0 <= L ->
  forall c, 0 <= c -> run n (state_at N L c) = Ok (state_at N L (c + Z.of_nat n)).
Proof.
  intros HN HL. induction n as [|n IH]; intros c Hc.
  - simpl. do 2 f_equal. lia.
  - cbn [run]. rewrite update_state_at by lia. cbn [bind].
    rewrite IH by lia. do 2 f_equal. lia.
Qed.

End Runs.

(** ** Snapshots *)

Section Snapshots.
Import OutputStationaryTopLevel.

Lemma mapM_total {A B : Type} (f : A -> result B) (g : A -> B) (l : list A) :
  (forall x, In x l -> f x = Ok (g x)) -> mapM f l = Ok (map g l).
Proof.
  induction l as [|x l IH]; intros H; [reflexivity|].
  cbn [mapM map]. rewrite (H x (or_introl eq_refl)). cbn [bind].
  rewrite IH by (intros y Hy; apply H; now right). reflexivity.
Qed.

Lemma in_tab {A : Type} (n : Z) (f : Z -> A) (x : A) :
  In x (tab n f) -> exists i, 0 <= i < n /\ x = f i.
Proof.
  unfold tab. intros H. apply in_map_iff in H. destruct H as [k [E Hk]].
  apply in_seq in Hk. exists (Z.of_nat k). split; [lia | now symmetry].
Qed.

Lemma toString_render (v : Value) :
  v <> Undefined -> toString v = Ok (render v).
Proof. destruct v; intros H; try reflexivity. now contradiction H. Qed.

Lemma partial_sum_defined (i j count : Z) : partial_sum i j count <> Undefined.
Proof. unfold partial_sum, zero. now destruct (count <=? 0). Qed.

Lemma X_stream_defined (L t r : Z) : X_stream L t r <> Undefined.
Proof. unfold X_stream, zero. now destruct ((0 <=? t) && (t <? L)). Qed.

Lemma W_stream_defined (L t r : Z) : W_stream L t r <> Undefined.
Proof. unfold W_stream, zero. now destruct ((0 <=? t) && (t <? L)). Qed.

Lemma acc_at_defined (N L c i j : Z) : acc_at N L c i j <> Undefined.
Proof.
  unfold acc_at. destruct (c <=? drainStart N L).
  - apply partial_sum_defined.
  - destruct (c - drainStart N L <=? i); [apply partial_sum_defined|].
    unfold zero. discriminate.
Qed.

Lemma y_at_defined (N L c i j : Z) : y_at N L c i j <> Undefined.
Proof.
  unfold y_at.
  destruct ((drainStart N L <? c) && (N - (c - drainStart N L) <=? i)).
  - apply partial_sum_defined.
  - unfold zero. discriminate.
Qed.

Lemma generated_defined (name : string) (tr : bool) (i j : Z) :
  generated name tr i j <> Undefined.
Proof. unfold generated. now destruct tr. Qed.

Lemma dump_state_at (N L c : Z) :
  dump_state (state_at N L c) = Ok (snapshot_of (state_at N L c)).
Proof.
  unfold dump_state.
  rewrite (mapM_total toString render (MatrixRAM.cells (X_mem (state_at N L c)))).
  2:{ intros x Hx. apply in_tab in Hx. destruct Hx as [i [_ ->]].
      apply toString_render, generated_defined. }
  rewrite (mapM_total toString render (MatrixRAM.cells (W_mem (state_at N L c)))).
  2:{ intros x Hx. apply in_tab in Hx. destruct Hx as [i [_ ->]].
      apply toString_render, generated_defined. }
  rewrite (mapM_total toString render (MatrixRAM.cells (Y_mem (state_at N L c)))).
  2:{ intros x Hx. apply in_tab in Hx. destruct Hx as [i [_ ->]].
      apply toString_render, y_at_defined. }
  rewrite (mapM_total (mapM toString) (map render)
             (DelayRegisterTriangle.registers (X_delay (state_at N L c)))).
  2:{ intros row Hrow. apply in_tab in Hrow. destruct Hrow as [i [_ ->]].
      apply mapM_total. intros x Hx. apply in_tab in Hx. destruct Hx as [j [_ ->]].
      apply toString_render, X_stream_defined. }
  rewrite (mapM_total (mapM toString) (map render)
             (DelayRegisterTriangle.registers (W_delay (state_at N L c)))).
  2:{ intros row Hrow. apply in_tab in Hrow. destruct Hrow as [i [_ ->]].
      apply mapM_total. intros x Hx. apply in_tab in Hx. destruct Hx as [j [_ ->]].
      apply toString_render, W_stream_defined. }
  rewrite (mapM_total (mapM dump_pe) (map render_pe)
             (OutputStationarySystolicArray.array (systolicArray (state_at N L c)))).
  2:{ intros row Hrow. apply in_tab in Hrow. destruct Hrow as [i [_ ->]].
      apply mapM_total. intros x Hx. apply in_tab in Hx. destruct Hx as [j [_ ->]].
      unfold dump_pe, pe_at. cbn [OutputStationaryPE.X OutputStationaryPE.W
                                   OutputStationaryPE.Acc].
      rewrite (toString_render _ (X_stream_defined _ _ _)).
      rewrite (toString_render _ (W_stream_defined _ _ _)).
      rewrite (toString_render _ (acc_at_defined _ _ _ _ _)). reflexivity. }
  reflexivity.
Qed.

Lemma simulate_loop_state_at (N L : Z) (n : nat) :
  1 <= N -> 0 <= L ->
  forall c, 0 <= c ->
    simulate_loop n (state_at N L c) =
    Ok (map (fun k => snapshot_of (state_at N L (c + Z.of_nat k))) (seq 0 n),
        state_at N L (c + Z.of_nat n)).
Proof.
  intros HN HL. induction n as [|n IH]; intros c Hc.
  - cbn [simulate_loop seq map]. do 3 f_equal. lia.
  - cbn [simulate_loop]. rewrite dump_state_at. cbn [bind].
    rewrite update_state_at by lia. cbn [bind].
    rewrite IH by lia. cbn [bind fst snd seq map]. f_equal. f_equal.
    + f_equal.
      * do 2 f_equal. lia.
      * rewrite <- seq_shift, map_map. apply map_ext. intros k.
        do 2 f_equal. lia.
    + f_equal. lia.
Qed.

Lemma simulate_state_at (N L : Z) (numCycles : option Z) :
  1 <= N -> 0 <= L -> 0 <= cycles_of N L numCycles ->
  simulate (state_at N L 0) numCycles =
  Ok (tab (cycles_of N L numCycles) (fun k => snapshot_of (state_at N L k)),
      state_at N L (cycles_of N L numCycles)).
Proof.
  intros HN HL Hn. unfold simulate.
  change (arrayWidth (state_at N L 0)) with N.
  change (streamLength (state_at N L 0)) with L.
  fold (cycles_of N L numCycles).
  rewrite new_Array_tab by lia. cbn [bind].
  rewrite simulate_loop_state_at by lia.
  replace (0 + Z.of_nat (Z.to_nat (cycles_of N L numCycles)))
    with (cycles_of N L numCycles) by lia.
  reflexivity.
Qed.

End Snapshots.

(** * The claims *)

(** ** The processing element *)

Section ProcessingElement.
Import OutputStationaryPE.

Lemma throw_with_defined {A : Type} (parts : list Value) (e : Error) :
  Forall (fun v => v <> Undefined) parts -> @throw_with A parts e = Err e.
Proof.
  induction 1 as [|v rest Hv _ IH]; [reflexivity|].
  cbn [throw_with]. rewrite (toString_render v Hv). exact IH.
Qed.

(** The validation answers [Ok] or [InconsistentAccumulation], and the
    latter exactly when the consistency check fails. *)
Lemma validate_spec (xn : string) (xi xj : Z) (wn : string) (wi wj : Z) (acc : Value) :
  acc <> Undefined ->
  (validate xn xi xj wn wi wj acc = Ok tt
   /\ ~ consistency_check_fails xn xi xj wn wi wj acc)
  \/ (validate xn xi xj wn wi wj acc = Err InconsistentAccumulation
      /\ consistency_check_fails xn xi xj wn wi wj acc).
Proof.
  intros Hacc. unfold validate, consistency_check_fails.
  destruct (Z.eqb_spec xj wi) as [<-|Hne]; cbn [negb].
  2:{ right. split; [|now left].
      apply throw_with_defined. repeat constructor; discriminate. }
  destruct (isConstantZero acc) eqn:Ezero.
  - destruct (Z.eqb_spec xj 0) as [->|Hk]; cbn [negb].
    + left. split; [reflexivity|].
      intros [H|[[_ H]|[[l [r [i [j [E _]]]]]|[H _]]]]; try congruence.
      subst acc. discriminate.
    + right. split; [reflexivity|]. right. left. auto.
  - destruct acc as [v|n a b|l r i j n|]; try contradiction.
    + right. split.
      * apply throw_with_defined. repeat constructor; discriminate.
      * right. right. right. split; [reflexivity|]. discriminate.
    + right. split.
      * apply throw_with_defined. repeat constructor; discriminate.
      * right. right. right. split; [reflexivity|]. discriminate.
    + destruct (Z.eqb_spec n xj) as [->|Hn].
      * destruct (String.eqb_spec l xn) as [->|Hl];
          [destruct (String.eqb_spec r wn) as [->|Hr];
           [destruct (Z.eqb_spec i xi) as [->|Hi];
            [destruct (Z.eqb_spec j wj) as [->|Hj]|]|]|]; cbn [negb orb].
        -- left. split; [reflexivity|].
           intros [H|[[H _]|[[l' [r' [i' [j' [E H]]]]]|[_ H]]]]; congruence.
        -- right. split.
           ++ apply throw_with_defined. repeat constructor; discriminate.
           ++ right. right. left. exists xn, wn, xi, j. split; congruence.
        -- right. split.
           ++ apply throw_with_defined. repeat constructor; discriminate.
           ++ right. right. left. exists xn, wn, i, j. split; congruence.
        -- right. split.
           ++ apply throw_with_defined. repeat constructor; discriminate.
           ++ right. right. left. exists xn, r, i, j. split; congruence.
        -- right. split.
           ++ apply throw_with_defined. repeat constructor; discriminate.
           ++ right. right. left. exists l, r, i, j. split; congruence.
      * right. split.
        -- apply throw_with_defined. repeat constructor; discriminate.
        -- right. right. right. split; [reflexivity|]. congruence.
Qed.

(** C2: a non-failing update replaces the registers wholesale: X and W
    take the incoming values, and Acc is the partial sum with the names
    and indices of the current X and W and count [k + 1] when both are
    matrix elements, and the unchanged Acc when either is the zero
    constant. *)
Theorem pe_update_replaces_registers (regs regs' : Registers) (X_in W_in : Value) :
  update regs X_in W_in = Ok regs' ->
  X regs' = X_in /\ W regs' = W_in
  /\ (forall xn xi k wn wi wj,
         X regs = SymbolicMatrixElement xn xi k ->
         W regs = SymbolicMatrixElement wn wi wj ->
         Acc regs' = SymbolicPartialSum xn wn xi wj (k + 1))
  /\ (isConstantZero (X regs) = true \/ isConstantZero (W regs) = true ->
      Acc regs' = Acc regs).
Proof.
  unfold update. intros H. apply bind_Ok_inv in H.
  destruct H as [nextAcc [Hnext H]]. injection H as <-. cbn [X W Acc].
  split; [reflexivity|]. split; [reflexivity|]. split.
  - intros xn xi k wn wi wj EX EW. unfold next_Acc in Hnext.
    rewrite EX, EW in Hnext. apply bind_Ok_inv in Hnext.
    destruct Hnext as [_ [_ Hnext]]. congruence.
  - intros Hzero. unfold next_Acc in Hnext.
    destruct (X regs) as [xv|xn xi xj|? ? ? ? ?|] eqn:EX;
      destruct (W regs) as [wv|wn wi wj|? ? ? ? ?|] eqn:EW;
      try (cbn [isConstantZero] in Hzero; destruct Hzero; discriminate);
      cbn [isConstantZero] in Hnext, Hzero;
      destruct Hzero as [Hz|Hz]; rewrite Hz in Hnext;
      rewrite ?orb_true_r in Hnext; cbn [orb] in Hnext; congruence.
Qed.

Lemma pe_update_replaces_registers_witness :
  update {| X := SymbolicMatrixElement "X" 1 0;
            W := SymbolicMatrixElement "W" 0 2;
            Acc := ConstantInteger 0 |}
    (SymbolicMatrixElement "X" 1 1) (SymbolicMatrixElement "W" 1 2) =
    Ok {| X := SymbolicMatrixElement "X" 1 1;
          W := SymbolicMatrixElement "W" 1 2;
          Acc := SymbolicPartialSum "X" "W" 1 2 1 |}
  /\ Acc {| X := SymbolicMatrixElement "X" 1 1;
            W := SymbolicMatrixElement "W" 1 2;
            Acc := SymbolicPartialSum "X" "W" 1 2 1 |} =
     SymbolicPartialSum "X" "W" 1 2 (0 + 1).
Proof.
  split; [reflexivity|].
  exact (proj1 (proj2 (proj2 (pe_update_replaces_registers
    {| X := SymbolicMatrixElement "X" 1 0;
       W := SymbolicMatrixElement "W" 0 2;
       Acc := ConstantInteger 0 |}
    _ (SymbolicMatrixElement "X" 1 1) (SymbolicMatrixElement "W" 1 2) eq_refl)))
    "X"%string 1 0 "W"%string 0 2 eq_refl eq_refl).
Defined.

(** C6: over registers that hold values, the update fails with
    [InconsistentAccumulation] exactly when X and W are both matrix
    elements and the consistency check fails, and with
    [InvalidOperandPair] exactly when they are not both matrix elements
    and neither is the zero constant. *)
Theorem pe_update_failures (regs : Registers) (X_in W_in : Value) :
  X regs <> Undefined -> W regs <> Undefined -> Acc regs <> Undefined ->
  (update regs X_in W_in = Err InconsistentAccumulation <->
   exists xn xi xj wn wi wj,
     X regs = SymbolicMatrixElement xn xi xj
     /\ W regs = SymbolicMatrixElement wn wi wj
     /\ consistency_check_fails xn xi xj wn wi wj (Acc regs))
  /\ (update regs X_in W_in = Err InvalidOperandPair <->
      is_matrix_element (X regs) && is_matrix_element (W regs) = false
      /\ isConstantZero (X regs) = false /\ isConstantZero (W regs) = false).
Proof.
  intros HX HW HA. unfold update, next_Acc.
  destruct (X regs) as [xv|xn xi xj|xl xr xa xb xc|] eqn:EX; try contradiction;
    destruct (W regs) as [wv|wn wi wj|wl wr wa wb wc|] eqn:EW; try contradiction;
    cbn [isConstantZero is_matrix_element andb orb].
  all: try (destruct (validate_spec xn xi xj wn wi wj (Acc regs) HA)
              as [[Ev Hc]|[Ev Hc]]; rewrite Ev; cbn [bind]; split; split;
            try discriminate;
            try (intros [? [? [? [? [? [? [E1 [E2 E3]]]]]]]];
                 injection E1 as <- <- <-; injection E2 as <- <- <-;
                 contradiction);
            try (intros [? _]; discriminate);
            try (intros _; exists xn, xi, xj, wn, wi, wj; auto)).
  all: try (destruct (xv =? 0) eqn:Exv; cbn [orb bind]).
  all: try (destruct (wv =? 0) eqn:Ewv; cbn [orb bind]).
  all: rewrite ?(@throw_with_defined Value) by (repeat constructor; discriminate).
  all: cbn [bind].
  all: split; split;
    try discriminate;
    try (intros [? [? [? [? [? [? [E1 [E2 E3]]]]]]]]; discriminate);
    try (intros [_ [? ?]]; discriminate);
    try (intros _; auto).
Qed.

End ProcessingElement.

Lemma pe_update_failures_witness :
  OutputStationaryPE.update
    {| OutputStationaryPE.X := SymbolicMatrixElement "X" 0 1;
       OutputStationaryPE.W := SymbolicMatrixElement "W" 0 0;
       OutputStationaryPE.Acc := ConstantInteger 0 |}
    (ConstantInteger 0) (ConstantInteger 0) = Err InconsistentAccumulation.
Proof.
  apply (proj1 (pe_update_failures
                  {| OutputStationaryPE.X := SymbolicMatrixElement "X" 0 1;
                     OutputStationaryPE.W := SymbolicMatrixElement "W" 0 0;
                     OutputStationaryPE.Acc := ConstantInteger 0 |}
                  (ConstantInteger 0) (ConstantInteger 0)
                  ltac:(discriminate) ltac:(discriminate) ltac:(discriminate))).
  exists "X"%string, 0, 1, "W"%string, 0, 0.
  split; [reflexivity|]. split; [reflexivity|]. left. discriminate.
Defined.

(** ** The controller *)

Section Controller.
Import OutputStationaryController.

(** C3: with [drainStart = (2N - 1) + L], at cycle count [c] the
    memories are read iff [c < L], at address [c]; the output memory is
    written iff [drainStart <= c < drainStart + N], at address
    [(N - 1) - (c - drainStart)], which goes from [N - 1] down to [0]
    over the write window; the array evicts iff [c >= drainStart]; and
    [update] adds exactly one to the cycle count. *)
Theorem controller_signals (N L c : Z) :
  let this := {| arrayWidth := N; streamLength := L; cycleCount := c |} in
  let signals := produceControlSignals this in
  let drain := drainStart N L in
  (X_memReadEnable signals = true <-> c < L)
  /\ X_memReadAddress signals = c
  /\ (W_memReadEnable signals = true <-> c < L)
  /\ W_memReadAddress signals = c
  /\ (Y_memWriteEnable signals = true <-> drain <= c < drain + N)
  /\ Y_memWriteAddress signals = (N - 1) - (c - drain)
  /\ (c = drain -> Y_memWriteAddress signals = N - 1)
  /\ (c = drain + N - 1 -> Y_memWriteAddress signals = 0)
  /\ (Y_memWriteEnable signals = true -> 0 <= Y_memWriteAddress signals <= N - 1)
  /\ (movesOutputDown signals = true <-> c >= drain)
  /\ update this = {| arrayWidth := N; streamLength := L; cycleCount := c + 1 |}.
Proof.
  cbv zeta. unfold produceControlSignals, update, drainStart.
  cbn [X_memReadEnable X_memReadAddress W_memReadEnable W_memReadAddress
       Y_memWriteEnable Y_memWriteAddress movesOutputDown
       arrayWidth streamLength cycleCount].
  rewrite !Z.geb_leb, andb_true_iff, Z.ltb_lt, !Z.leb_le.
  repeat split; intros; lia.
Qed.

End Controller.

(** ** Construction *)

Section Construction.
Import OutputStationaryTopLevel.

Lemma for_up_total {S : Type} (n : nat) (lo : Z) (body : Z -> S -> result S) (s : S) :
  (forall i s, exists s', body i s = Ok s') ->
  exists s', for_up lo n body s = Ok s'.
Proof.
  intros H.
  destruct (for_up_inv (fun _ _ => True) n lo body s I) as [s' [E _]].
  - intros i t _ _. destruct (H i t) as [t' E]. eauto.
  - eauto.
Qed.

Lemma MatrixRAM_new_error (rows cols : Z) (name : string) (a b : Z) (tr : bool)
    (e : Error) :
  MatrixRAM.new rows cols (SymbolicMatrixElement name a b) tr = Err e ->
  e = RangeError.
Proof.
  unfold MatrixRAM.new, new_Array.
  destruct (0 <=? rows * cols); cbn [bind]; [|congruence].
  match goal with
  | |- context [for_up 0 ?n ?body ?s] =>
      destruct (for_up_total n 0 body s) as [s' ->]
  end.
  - intros i s. apply for_up_total. intros j t. eauto.
  - discriminate.
Qed.

Lemma MatrixRAM_new_constant_error (rows cols v : Z) (tr : bool) (e : Error) :
  MatrixRAM.new rows cols (ConstantInteger v) tr = Err e -> e = RangeError.
Proof.
  unfold MatrixRAM.new, new_Array.
  destruct (0 <=? rows * cols); cbn [bind]; [|congruence].
  match goal with
  | |- context [for_up 0 ?n ?body ?s] =>
      destruct (for_up_total n 0 body s) as [s' ->]
  end.
  - intros i s. eauto.
  - discriminate.
Qed.

Lemma DelayRegisterTriangle_new_error (n : Z) (e : Error) :
  DelayRegisterTriangle.new n = Err e -> e = RangeError.
Proof.
  destruct (Z.le_gt_cases 0 n) as [H|H].
  - rewrite new_tabj by lia. discriminate.
  - unfold DelayRegisterTriangle.new, new_Array.
    destruct (Z.leb_spec 0 n); [lia|]. cbn [bind]. congruence.
Qed.

Lemma systolicArray_new_error (n : Z) (e : Error) :
  OutputStationarySystolicArray.new n = Err e -> e = RangeError.
Proof.
  destruct (Z.le_gt_cases 0 n) as [H|H].
  - rewrite systolicArray_new by lia. discriminate.
  - unfold OutputStationarySystolicArray.new, new_Array.
    destruct (Z.leb_spec 0 n); [lia|]. cbn [bind]. congruence.
Qed.

(** C7: the construction fails with [DimensionMismatch], and answers no
    design, if and only if the inner dimensions of the factors differ,
    or their outer dimensions differ from those of the array, or the
    array is not square. *)
Theorem constructor_dimension_mismatch (X_row_count X_col_count W_row_count
    W_col_count systolic_row_count systolic_col_count : Z) :
  new X_row_count X_col_count W_row_count W_col_count
      systolic_row_count systolic_col_count = Err DimensionMismatch
  <-> (X_col_count <> W_row_count
       \/ (X_row_count <> systolic_row_count \/ W_col_count <> systolic_col_count)
       \/ systolic_row_count <> systolic_col_count).
Proof.
  unfold new.
  destruct (Z.eqb_spec X_col_count W_row_count) as [E1|E1]; cbn [negb];
    [|split; auto].
  destruct (Z.eqb_spec X_row_count systolic_row_count) as [E2|E2]; cbn [negb orb];
    [|split; auto].
  destruct (Z.eqb_spec W_col_count systolic_col_count) as [E3|E3]; cbn [negb orb];
    [|split; auto].
  destruct (Z.eqb_spec systolic_row_count systolic_col_count) as [E4|E4];
    cbn [negb]; [|split; auto].
  split; [|intros [H|[[H|H]|H]]; contradiction].
  intros H. exfalso.
  apply bind_Err_inv in H. destruct H as [H|[? [_ H]]];
    [apply MatrixRAM_new_error in H; discriminate|].
  apply bind_Err_inv in H. destruct H as [H|[? [_ H]]];
    [apply MatrixRAM_new_error in H; discriminate|].
  apply bind_Err_inv in H. destruct H as [H|[? [_ H]]];
    [apply MatrixRAM_new_constant_error in H; discriminate|].
  apply bind_Err_inv in H. destruct H as [H|[? [_ H]]];
    [apply DelayRegisterTriangle_new_error in H; discriminate|].
  apply bind_Err_inv in H. destruct H as [H|[? [_ H]]];
    [apply DelayRegisterTriangle_new_error in H; discriminate|].
  apply bind_Err_inv in H. destruct H as [H|[? [_ H]]];
    [apply systolicArray_new_error in H; discriminate|].
  discriminate.
Qed.

End Construction.

(** ** The delay-register triangle *)

Section DelayClaims.
Import DelayRegisterTriangle.

Lemma delay_feed_tabj (n : Z) (inputs : list (list Value)) :
  Forall (fun input => Z.of_nat (List.length input) = n + 1) inputs ->
  forall F,
    delay_feed {| N := n; registers := tabj n F |} inputs =
    Ok {| N := n; registers := tabj n (fed inputs F) |}.
Proof.
  induction 1 as [|x rest Hx _ IH]; intros F.
  - cbn [delay_feed]. do 2 f_equal. apply tabj_ext. intros i j Hi Hj.
    unfold fed. cbn [List.length]. zcases. f_equal. lia.
  - cbn [delay_feed]. rewrite update_tabj by exact Hx. cbn [bind].
    rewrite IH. do 2 f_equal. apply tabj_ext. intros i j Hi Hj.
    unfold fed, shifted. cbn [List.length]. rewrite Nat2Z.inj_succ.
    set (len := Z.of_nat (List.length rest)).
    destruct (Z.ltb_spec j len) as [Hlt|Hge].
    + destruct (Z.ltb_spec j (Z.succ len)); [|lia].
      replace (Z.to_nat (Z.succ len - 1 - j))
        with (Datatypes.S (Z.to_nat (len - 1 - j))) by lia.
      reflexivity.
    + destruct (Z.eqb_spec (j - len) 0) as [E|E].
      * destruct (Z.ltb_spec j (Z.succ len)); [|lia].
        replace (Z.to_nat (Z.succ len - 1 - j)) with O by lia. reflexivity.
      * destruct (Z.ltb_spec j (Z.succ len)); [lia|]. f_equal. lia.
Qed.

(** C4: after any sequence of updates with input vectors of length
    [N + 1], slot 0 of the output is slot 0 of the current input, and
    slot [i] in [1..N] at cycle [c] (the number of updates so far) is
    slot [i] of the input given to the update of cycle [c - i], or the
    zero constant when fewer than [i] updates have occurred. *)
Theorem delay_triangle_delays (n : Z) (this : t) (inputs : list (list Value))
    (current : list Value) :
  new n = Ok this ->
  Forall (fun input => Z.of_nat (List.length input) = n + 1) inputs ->
  Z.of_nat (List.length current) = n + 1 ->
  exists this' output,
    delay_feed this inputs = Ok this'
    /\ produce_output this' current = Ok output
    /\ Z.of_nat (List.length output) = n + 1
    /\ js_get output 0 = js_get current 0
    /\ forall i, 1 <= i <= n ->
         let c := Z.of_nat (List.length inputs) in
         js_get output i =
         if i <=? c then js_get (nth (Z.to_nat (c - i)) inputs []) i
         else ConstantInteger 0.
Proof.
  intros Hnew Hall Hcur.
  assert (Hn : 0 <= n).
  { destruct (Z.le_gt_cases 0 n) as [|Hlt]; [assumption|exfalso].
    unfold new, new_Array in Hnew.
    destruct (Z.leb_spec 0 n); [lia | discriminate]. }
  rewrite new_tabj in Hnew by lia. injection Hnew as <-.
  eexists. eexists. split; [now apply delay_feed_tabj|].
  split; [now apply produce_output_tabj|].
  split; [rewrite tab_length; lia|].
  split; [now rewrite js_get_tab by lia|].
  intros i Hi c. rewrite js_get_tab by lia.
  destruct (Z.eqb_spec i 0); [lia|]. unfold fed. fold c.
  destruct (Z.ltb_spec (i - 1) c); destruct (Z.leb_spec i c); try lia.
  - replace (c - 1 - (i - 1)) with (c - i) by lia.
    replace (i - 1 + 1) with i by lia. reflexivity.
  - reflexivity.
Qed.

Lemma delay_triangle_delays_witness :
  exists this' output,
    delay_feed {| N := 1; registers := [[ConstantInteger 0]] |}
      [[ConstantInteger 0; SymbolicMatrixElement "X" 1 0]] = Ok this'
    /\ produce_output this' [ConstantInteger 0; SymbolicMatrixElement "X" 1 1]
       = Ok output
    /\ js_get output 1 = SymbolicMatrixElement "X" 1 0.
Proof.
  assert (Hall : Forall (fun input => Z.of_nat (List.length input) = 1 + 1)
                   [[ConstantInteger 0; SymbolicMatrixElement "X" 1 0]])
    by (constructor; [reflexivity | constructor]).
  destruct (delay_triangle_delays 1
              {| N := 1; registers := [[ConstantInteger 0]] |}
              [[ConstantInteger 0; SymbolicMatrixElement "X" 1 0]]
              [ConstantInteger 0; SymbolicMatrixElement "X" 1 1]
              eq_refl Hall eq_refl) as [this' [output [H1 [H2 [_ [_ H3]]]]]].
  exists this', output. split; [exact H1|]. split; [exact H2|].
  exact (H3 1 (conj (Z.le_refl 1) (Z.le_refl 1))).
Defined.

End DelayClaims.

(** ** Eviction from the systolic array *)

Section ArrayClaims.
Import OutputStationaryPE OutputStationarySystolicArray.

Lemma nth_tab {A : Type} (n : Z) (f : Z -> A) (i : Z) (d : A) :
  0 <= i < n -> nth (Z.to_nat i) (tab n f) d = f i.
Proof.
  intros Hi. apply nth_error_nth. rewrite nth_error_tab.
  destruct (Nat.ltb_spec (Z.to_nat i) (Z.to_nat n)); [|lia].
  now rewrite Z2Nat.id by lia.
Qed.

Lemma list_as_tab {A : Type} (l : list A) (n : Z) (d : A) :
  List.length l = Z.to_nat n -> l = tab n (fun i => nth (Z.to_nat i) l d).
Proof.
  intros Hlen. apply nth_error_ext. intros k. rewrite nth_error_tab.
  destruct (Nat.ltb_spec k (Z.to_nat n)).
  - rewrite Nat2Z.id. apply nth_error_nth'. lia.
  - apply nth_error_None. lia.
Qed.

Lemma well_shaped_tab2 (this : t) :
  well_shaped this -> array this = tab2 (N this) (cell (array this)).
Proof.
  intros [Hn [Hlen Hrows]].
  rewrite (list_as_tab (array this) (N this) [] Hlen) at 1.
  unfold tab2. apply tab_ext. intros i Hi. unfold cell.
  apply list_as_tab. rewrite Forall_forall in Hrows. apply Hrows.
  apply nth_In. lia.
Qed.

Lemma cell_tab2 (n : Z) (F : Z -> Z -> Registers) (i j : Z) :
  0 <= i < n -> 0 <= j < n -> cell (tab2 n F) i j = F i j.
Proof.
  intros Hi Hj. unfold cell, tab2. rewrite nth_tab by lia. now apply nth_tab.
Qed.

Lemma tab2_well_shaped (n : Z) (F : Z -> Z -> Registers) :
  0 <= n -> well_shaped {| N := n; array := tab2 n F |}.
Proof.
  intros Hn. unfold well_shaped. cbn [N array]. split; [assumption|].
  split; [apply tab_length|]. apply Forall_forall. intros row Hrow.
  apply in_tab in Hrow. destruct Hrow as [i [_ ->]]. apply tab_length.
Qed.

(** C5: when the array evicts, its output is the vector of the
    accumulators of the bottom row, and the update moves every
    accumulator one row down and clears those of row 0, whatever the
    input vectors are; when it does not evict, its output is [N] zero
    constants. *)
Theorem systolic_array_eviction (this : t) (inputs_X inputs_W : list Value) :
  well_shaped this ->
  produce_output this true =
    Ok (map Acc (nth (Z.to_nat (N this - 1)) (array this) []))
  /\ produce_output this false =
       Ok (repeat (ConstantInteger 0) (Z.to_nat (N this)))
  /\ exists this',
       update this inputs_X inputs_W true = Ok this'
       /\ well_shaped this' /\ N this' = N this
       /\ forall r j, 0 <= r < N this -> 0 <= j < N this ->
            cell (array this') r j =
            {| X := X (cell (array this) r j);
               W := W (cell (array this) r j);
               Acc := if r =? 0 then ConstantInteger 0
                      else Acc (cell (array this) (r - 1) j) |}.
Proof.
  intros Hwf. pose proof (well_shaped_tab2 this Hwf) as E.
  destruct Hwf as [Hn _]. destruct this as [n a]. cbn [N array] in *.
  set (F := cell a) in *. clearbody F. subst a.
  split; [|split].
  - rewrite produce_output_evict by lia. f_equal.
    destruct (Z.eq_dec n 0) as [->|Hne]; [reflexivity|].
    unfold tab2. rewrite nth_tab by lia. unfold tab. now rewrite map_map.
  - rewrite produce_output_idle by lia. now rewrite tab_repeat.
  - rewrite update_evict by lia. eexists. split; [reflexivity|].
    split; [now apply tab2_well_shaped|]. split; [reflexivity|].
    intros r j Hr Hj. cbn [array]. rewrite cell_tab2 by lia.
    unfold evicted, set_Acc. now destruct (Z.eqb_spec r 0).
Qed.

Lemma systolic_array_eviction_witness :
  produce_output
    {| N := 1;
       array := [[{| X := ConstantInteger 0; W := ConstantInteger 0;
                     Acc := SymbolicPartialSum "X" "W" 0 0 2 |}]] |} true =
  Ok [SymbolicPartialSum "X" "W" 0 0 2].
Proof.
  exact (proj1 (systolic_array_eviction
    {| N := 1;
       array := [[{| X := ConstantInteger 0; W := ConstantInteger 0;
                     Acc := SymbolicPartialSum "X" "W" 0 0 2 |}]] |} [] []
    ltac:(split; [simpl; lia
                 | split; [reflexivity | constructor; [reflexivity | constructor]]]))).
Defined.

End ArrayClaims.

(** ** Whole runs of the design *)

Section WholeRuns.
Import OutputStationaryTopLevel.

Lemma js_get_matrix (rows cols : Z) (y : Z -> Z -> Value) (i j : Z) :
  0 <= i < rows -> 0 <= j < cols ->
  js_get (matrix rows cols y) (i * cols + j) = y i j.
Proof.
  intros Hi Hj. unfold matrix.
  rewrite js_get_tab by (apply cell_in_range; lia). unfold flat.
  destruct (cell_index cols i j Hj) as [-> ->]. reflexivity.
Qed.

Lemma nth_error_matrix_render (rows cols : Z) (y : Z -> Z -> Value) (i j : Z) :
  0 <= i < rows -> 0 <= j < cols ->
  nth_error (map render (matrix rows cols y)) (Z.to_nat (i * cols + j))
  = Some (render (y i j)).
Proof.
  intros Hi Hj. pose proof (cell_in_range rows cols i j Hi Hj) as Hr.
  rewrite nth_error_map. unfold matrix. rewrite nth_error_tab.
  destruct (Nat.ltb_spec (Z.to_nat (i * cols + j)) (Z.to_nat (rows * cols))); [|lia].
  rewrite Z2Nat.id by lia. unfold flat.
  destruct (cell_index cols i j Hj) as [-> ->]. reflexivity.
Qed.

(** C1, for a stream of length at least 1: for every valid construction,
    of array width [N = systolic_row_count] and stream length
    [L = X_col_count >= 1], [simulate(null)] runs [3N + L] cycles and
    leaves in every cell [(i, j)] of the output memory the partial sum
    of X and W with indices exactly [i] and [j] and count [L]. *)
Theorem drain_completeness (X_row_count X_col_count W_row_count W_col_count
    systolic_row_count systolic_col_count : Z) (this : t) :
  new X_row_count X_col_count W_row_count W_col_count
      systolic_row_count systolic_col_count = Ok this ->
  1 <= X_col_count ->
  drain_complete systolic_row_count X_col_count this.
Proof.
  intros Hnew HL1. apply new_Ok_inv in Hnew.
  destruct Hnew as [_ [_ [_ [_ [HN [HL ->]]]]]].
  set (N := systolic_row_count) in *. set (L := X_col_count) in *.
  unfold drain_complete.
  exists (tab (3 * N + L) (fun k => snapshot_of (state_at N L k))).
  exists (state_at N L (3 * N + L)).
  exists (snapshot_of (state_at N L (3 * N + L - 1))).
  split; [apply (simulate_state_at N L None); cbn [cycles_of]; lia|].
  split; [rewrite tab_length; lia|].
  split.
  { rewrite nth_error_tab.
    destruct (Nat.ltb_spec (Z.to_nat (3 * N + L - 1)) (Z.to_nat (3 * N + L))); [|lia].
    now rewrite Z2Nat.id by lia. }
  split; [apply tab_length|].
  intros i j Hi Hj. split.
  - cbn [Y_mem state_at MatrixRAM.cells]. rewrite js_get_matrix by lia.
    closed_forms.
  - cbn [regs_Y_mem snapshot_of Y_mem state_at MatrixRAM.cells].
    rewrite nth_error_matrix_render by lia. f_equal.
    replace (y_at N L (3 * N + L - 1) i j) with (SymbolicPartialSum "X" "W" i j L)
      by closed_forms.
    reflexivity.
Qed.

Lemma drain_completeness_witness :
  exists this, new 2 2 2 2 2 2 = Ok this /\ drain_complete 2 2 this.
Proof.
  exists (state_at 2 2 0).
  assert (E : new 2 2 2 2 2 2 = Ok (state_at 2 2 0)) by (vm_compute; reflexivity).
  split; [exact E|].
  apply (drain_completeness 2 2 2 2 2 2 (state_at 2 2 0) E). lia.
Defined.

(** C1 does not extend to a stream of length 0: the design of width 1 is
    constructed, and its run leaves the zero constant in the output
    memory, which is no partial sum. *)
Lemma drain_completeness_fails_for_empty_stream :
  exists this, new 1 0 0 1 1 1 = Ok this /\ ~ drain_complete 1 0 this.
Proof.
  exists (state_at 1 0 0). split; [vm_compute; reflexivity|].
  intros [snapshots [final [last [E [_ [_ [_ H]]]]]]].
  vm_compute in E. injection E as _ <-.
  destruct (H 0 0 ltac:(lia) ltac:(lia)) as [H0 _].
  vm_compute in H0. discriminate.
Qed.

(** C8, with the write-enable that snapshot 7 shows: in the run with
    X 2x2, W 2x2 and a 2x2 array, [simulate(null)] answers 8 snapshots;
    snapshot 0 shows every PE and delay register at the zero constant
    and the X memory read at address 0; snapshot 7 shows the four output
    cells holding the partial sums of count 2, and the write-enable
    false: it is true at snapshots 5 and 6, when rows 1 and 0 are
    written. *)
Theorem concrete_scenario_holds :
  concrete_scenario false
  /\ exists snapshots final s5 s6,
       concrete_run = Ok (snapshots, final)
       /\ nth_error snapshots 5 = Some s5
       /\ nth_error snapshots 6 = Some s6
       /\ OutputStationaryController.Y_memWriteEnable (wires_controlSignals s5) = true
       /\ OutputStationaryController.Y_memWriteAddress (wires_controlSignals s5) = 1
       /\ OutputStationaryController.Y_memWriteEnable (wires_controlSignals s6) = true
       /\ OutputStationaryController.Y_memWriteAddress (wires_controlSignals s6) = 0.
Proof.
  unfold concrete_scenario.
  set (r := concrete_run). vm_compute in r. subst r.
  split.
  - do 4 eexists. split; [reflexivity|]. split; [reflexivity|].
    split; [reflexivity|]. repeat split; reflexivity.
  - do 4 eexists. split; [reflexivity|]. split; [reflexivity|].
    split; [reflexivity|]. repeat split; reflexivity.
Qed.

(** C8 with the write-enable true at snapshot 7 does not hold: the write
    window [drainStart <= c < drainStart + N] is over at cycle 7. *)
Lemma concrete_scenario_write_enable_fails : ~ concrete_scenario true.
Proof.
  intros [snapshots [final [s0 [s7 [E [_ [_ [_ [_ [_ [_ [_ [H7 [HE _]]]]]]]]]]]]]].
  vm_compute in E. injection E as <- _.
  vm_compute in H7. injection H7 as <-.
  vm_compute in HE. discriminate.
Qed.

End WholeRuns.

Section OutputMemory.
Import OutputStationaryTopLevel.

Lemma Y_mem_zero_before_drain (N L c : Z) :
  c <= drainStart N L ->
  MatrixRAM.cells (Y_mem (state_at N L c))
  = repeat (ConstantInteger 0) (Z.to_nat (N * N)).
Proof.
  intros Hc. cbn [Y_mem state_at MatrixRAM.cells]. unfold matrix.
  rewrite tab_repeat. apply tab_ext. intros idx _. unfold flat, y_at.
  destruct (Z.ltb_spec (drainStart N L) c); [lia | reflexivity].
Qed.

Lemma simulate_Ok_cycles (this : t) (numCycles : option Z)
    (snapshots : list Snapshot) (final : t) :
  simulate this numCycles = Ok (snapshots, final) ->
  0 <= cycles_of (arrayWidth this) (streamLength this) numCycles.
Proof.
  unfold simulate. fold (cycles_of (arrayWidth this) (streamLength this) numCycles).
  unfold new_Array.
  destruct (Z.leb_spec 0 (cycles_of (arrayWidth this) (streamLength this) numCycles));
    [auto | discriminate].
Qed.

(** C9: in every snapshot [c] with [c < drainStart = (2N - 1) + L] of a
    run of a valid construction, every cell of the output memory is
    still the zero constant. *)
Theorem output_memory_zero_before_drain (X_row_count X_col_count W_row_count
    W_col_count systolic_row_count systolic_col_count : Z) (this : t)
    (numCycles : option Z) (snapshots : list Snapshot) (final : t)
    (c : Z) (s : Snapshot) :
  new X_row_count X_col_count W_row_count W_col_count
      systolic_row_count systolic_col_count = Ok this ->
  simulate this numCycles = Ok (snapshots, final) ->
  0 <= c < drainStart systolic_row_count X_col_count ->
  nth_error snapshots (Z.to_nat c) = Some s ->
  regs_Y_mem s
  = repeat "0"%string (Z.to_nat (systolic_row_count * systolic_row_count))
  /\ exists st,
       run (Z.to_nat c) this = Ok st
       /\ MatrixRAM.cells (Y_mem st)
          = repeat (ConstantInteger 0)
              (Z.to_nat (systolic_row_count * systolic_row_count)).
Proof.
  intros Hnew Hsim Hc Hs. apply new_Ok_inv in Hnew.
  destruct Hnew as [_ [_ [_ [_ [HN [HL ->]]]]]].
  set (N := systolic_row_count) in *. set (L := X_col_count) in *.
  pose proof (simulate_Ok_cycles _ _ _ _ Hsim) as Hn.
  change (arrayWidth (state_at N L 0)) with N in Hn.
  change (streamLength (state_at N L 0)) with L in Hn.
  rewrite simulate_state_at in Hsim by lia. injection Hsim as <- _.
  rewrite nth_error_tab in Hs.
  destruct (Z.to_nat c <? Z.to_nat (cycles_of N L numCycles))%nat; [|discriminate].
  rewrite Z2Nat.id in Hs by lia. injection Hs as <-.
  split.
  - cbn [regs_Y_mem snapshot_of]. rewrite Y_mem_zero_before_drain by lia.
    now rewrite map_repeat.
  - exists (state_at N L c). split.
    + rewrite run_state_at by lia. do 2 f_equal. lia.
    + apply Y_mem_zero_before_drain. lia.
Qed.

Lemma output_memory_zero_before_drain_witness :
  regs_Y_mem (snapshot_of (state_at 2 2 4)) = ["0"; "0"; "0"; "0"]%string.
Proof.
  assert (E1 : new 2 2 2 2 2 2 = Ok (state_at 2 2 0)) by (vm_compute; reflexivity).
  assert (E2 : simulate (state_at 2 2 0) None
               = Ok (tab 8 (fun k => snapshot_of (state_at 2 2 k)), state_at 2 2 8))
    by (vm_compute; reflexivity).
  assert (E3 : 0 <= 4 < drainStart 2 2) by (unfold drainStart; lia).
  assert (E4 : nth_error (tab 8 (fun k => snapshot_of (state_at 2 2 k))) (Z.to_nat 4)
               = Some (snapshot_of (state_at 2 2 4))) by reflexivity.
  exact (proj1 (output_memory_zero_before_drain 2 2 2 2 2 2 _ None _ _ 4 _ E1 E2 E3 E4)).
Defined.

Lemma update_frame (this this' : t) :
  update this = Ok this' ->
  X_mem this' = X_mem this /\ W_mem this' = W_mem this
  /\ controller this' = OutputStationaryController.update (controller this)
  /\ (OutputStationaryController.Y_memWriteEnable
        (OutputStationaryController.produceControlSignals (controller this)) = false ->
      Y_mem this' = Y_mem this).
Proof.
  unfold update. intros H.
  apply bind_Ok_inv in H. destruct H as [X_in [_ H]].
  apply bind_Ok_inv in H. destruct H as [W_in [_ H]].
  apply bind_Ok_inv in H. destruct H as [X_in_delayed [_ H]].
  apply bind_Ok_inv in H. destruct H as [X_delay' [_ H]].
  apply bind_Ok_inv in H. destruct H as [W_in_delayed [_ H]].
  apply bind_Ok_inv in H. destruct H as [W_delay' [_ H]].
  apply bind_Ok_inv in H. destruct H as [Y_out [_ H]].
  apply bind_Ok_inv in H. destruct H as [Y_mem' [HY H]].
  apply bind_Ok_inv in H. destruct H as [systolicArray' [_ H]].
  injection H as <-. cbn [X_mem W_mem Y_mem controller].
  repeat split. intros Hwe. rewrite Hwe in HY. congruence.
Qed.

Lemma write_enabled_at_0 (ctl : OutputStationaryController.t) :
  write_enabled_at ctl 0
  = OutputStationaryController.Y_memWriteEnable
      (OutputStationaryController.produceControlSignals ctl).
Proof.
  unfold write_enabled_at. rewrite Z.add_0_r. now destruct ctl.
Qed.

Lemma write_enabled_at_update (ctl : OutputStationaryController.t) (k : Z) :
  write_enabled_at (OutputStationaryController.update ctl) k
  = write_enabled_at ctl (k + 1).
Proof.
  unfold write_enabled_at, OutputStationaryController.update.
  cbn [OutputStationaryController.arrayWidth OutputStationaryController.streamLength
       OutputStationaryController.cycleCount].
  do 3 f_equal. lia.
Qed.

(** C10: over any run of updates, from any state of the design, the X
    and W memories are left as they were, and the Y memory too unless
    the write-enable is true in one of the cycles. *)
Theorem input_memories_read_only (n : nat) :
  forall this this' : t,
    run n this = Ok this' ->
    X_mem this' = X_mem this /\ W_mem this' = W_mem this
    /\ ((forall k, 0 <= k < Z.of_nat n ->
                   write_enabled_at (controller this) k = false) ->
        Y_mem this' = Y_mem this).
Proof.
  induction n as [|n IH]; intros this this' H.
  - cbn [run] in H. injection H as <-. auto.
  - cbn [run] in H. apply bind_Ok_inv in H. destruct H as [t1 [H1 H]].
    apply update_frame in H1. destruct H1 as [EX [EW [EC EY]]].
    apply IH in H. destruct H as [EX' [EW' EY']].
    split; [congruence|]. split; [congruence|].
    intros Hwe. rewrite EY'.
    + apply EY. rewrite <- write_enabled_at_0. apply Hwe. lia.
    + intros k Hk. rewrite EC, write_enabled_at_update. apply Hwe. lia.
Qed.

Lemma input_memories_read_only_witness :
  X_mem (state_at 2 2 8) = X_mem (state_at 2 2 0)
  /\ W_mem (state_at 2 2 8) = W_mem (state_at 2 2 0).
Proof.
  assert (E : run 8 (state_at 2 2 0) = Ok (state_at 2 2 8))
    by (vm_compute; reflexivity).
  pose proof (input_memories_read_only 8 _ _ E) as [H1 [H2 _]].
  split; [exact H1 | exact H2].
Defined.

End OutputMemory.

(** * Further properties of the code *)

(** ** Values and their strings *)

Section ValueStrings.

Lemma to_int_not_nil (z : Z) : Z.to_int z <> Decimal.Pos Decimal.Nil
                               /\ Z.to_int z <> Decimal.Neg Decimal.Nil.
Proof.
  destruct z as [|p|p]; cbn [Z.to_int]; split; try discriminate.
  - intros H. injection H as H. revert H. apply DecimalPos.Unsigned.to_uint_nonnil.
  - intros H. injection H as H. revert H. apply DecimalPos.Unsigned.to_uint_nonnil.
Qed.

Lemma string_of_number_inj (a b : Z) :
  string_of_number a = string_of_number b -> a = b.
Proof.
  unfold string_of_number. intros H. apply DecimalZ.to_int_inj.
  destruct (to_int_not_nil a) as [Ha1 Ha2]. destruct (to_int_not_nil b) as [Hb1 Hb2].
  pose proof (NilZero.isi (Z.to_int a) Ha1 Ha2) as Ea.
  pose proof (NilZero.isi (Z.to_int b) Hb1 Hb2) as Eb.
  rewrite H in Ea. congruence.
Qed.

(** X1: a register is stringified as ["0"] exactly when it holds the
    zero constant. *)
Theorem toString_zero_iff (v : Value) :
  toString v = Ok "0"%string <-> v = ConstantInteger 0.
Proof.
  split; [|intros ->; reflexivity].
  destruct v as [z|name a b|l r a b n|]; cbn [toString]; intros H;
    try discriminate.
  - injection H as H. f_equal. now apply string_of_number_inj.
  - injection H as H. destruct name as [|c name]; [discriminate|].
    cbn [append] in H. injection H as _ H. destruct name; discriminate.
Qed.

End ValueStrings.

(** ** The decoders of the renderer *)

Section Decoders.
Import HardwareRender.

Lemma digit_string (z : Z) :
  0 <= z <= 9 ->
  exists c, string_of_number z = String c EmptyString
            /\ forall s, parseInt_at (String c s) 0 = Some z.
Proof.
  intros Hz.
  assert (H : z = 0 \/ z = 1 \/ z = 2 \/ z = 3 \/ z = 4 \/ z = 5 \/ z = 6 \/ z = 7
              \/ z = 8 \/ z = 9) by lia.
  repeat (destruct H as [->|H]); [..|subst z];
    (eexists; split; [reflexivity | intros s; reflexivity]).
Qed.

Lemma parseInt_at_S (c : ascii) (s : string) (n : nat) :
  parseInt_at (String c s) (S n) = parseInt_at s n.
Proof. reflexivity. Qed.

(** X2: for a matrix with a one-character name and indices of one digit,
    [decodeWX] reads the two indices back from the string of the matrix
    element. *)
Theorem decodeWX_toString (c : ascii) (i j : Z) (value : string) :
  0 <= i <= 9 -> 0 <= j <= 9 ->
  toString (SymbolicMatrixElement (String c EmptyString) i j) = Ok value ->
  decodeWX value = {| HardwareRender.i := Some i; HardwareRender.j := Some j |}.
Proof.
  intros Hi Hj H. cbn [toString] in H. injection H as <-.
  destruct (digit_string i Hi) as [ci [Ei Pi]].
  destruct (digit_string j Hj) as [cj [Ej Pj]].
  rewrite Ei, Ej. cbn [append]. unfold decodeWX.
  rewrite !parseInt_at_S. now rewrite Pi, Pj.
Qed.

Lemma decodeWX_toString_witness :
  decodeWX "X_{12}" = {| HardwareRender.i := Some 1; HardwareRender.j := Some 2 |}.
Proof.
  exact (decodeWX_toString "X"%char 1 2 "X_{12}" ltac:(lia) ltac:(lia) eq_refl).
Defined.

(** X3: for matrices with one-character names, indices of one digit and
    a count from 1 to 10, [decodeSum] reads [count - 1] and the two
    indices back from the string of the partial sum, and the progress bar
    of the PE that holds it shows [count]; a PE whose accumulator is the
    zero constant shows 0. *)
Theorem progress_count_of_accumulator (cl cr : ascii) (i j n : Z)
    (x w acc : string) :
  0 <= i <= 9 -> 0 <= j <= 9 -> 1 <= n <= 10 ->
  toString (SymbolicPartialSum (String cl EmptyString) (String cr EmptyString) i j n)
  = Ok acc ->
  decodeSum acc = {| count := Some (n - 1); left := Some i; right := Some j |}
  /\ progress_count {| OutputStationaryTopLevel.X := x;
                       OutputStationaryTopLevel.W := w;
                       OutputStationaryTopLevel.Acc := acc |} = Some n
  /\ progress_count {| OutputStationaryTopLevel.X := x;
                       OutputStationaryTopLevel.W := w;
                       OutputStationaryTopLevel.Acc := "0" |} = Some 0.
Proof.
  intros Hi Hj Hn H. cbn [toString] in H. injection H as <-.
  destruct (digit_string i Hi) as [ci [Ei Pi]].
  destruct (digit_string j Hj) as [cj [Ej Pj]].
  destruct (digit_string (n - 1) ltac:(lia)) as [cn [En Pn]].
  rewrite Ei, Ej, En. cbn [append].
  split; [|split; [|reflexivity]].
  - unfold decodeSum. rewrite !parseInt_at_S. now rewrite Pi, Pj, Pn.
  - unfold progress_count, decodeSum.
    cbn [OutputStationaryTopLevel.Acc count String.eqb Ascii.eqb Bool.eqb andb].
    rewrite !parseInt_at_S, Pn. cbn [option_map]. f_equal. lia.
Qed.

Lemma progress_count_of_accumulator_witness :
  progress_count {| OutputStationaryTopLevel.X := "0";
                    OutputStationaryTopLevel.W := "0";
                    OutputStationaryTopLevel.Acc := "\sum_{0}^{1} X_{0i} W_{i1}" |}
  = Some 2.
Proof.
  exact (proj1 (proj2 (progress_count_of_accumulator "X"%char "W"%char 0 1 2
                         "0" "0" "\sum_{0}^{1} X_{0i} W_{i1}"
                         ltac:(lia) ltac:(lia) ltac:(lia) eq_refl))).
Defined.

(** X4: the renderer shows a PE active exactly when neither its X nor
    its W register holds the zero constant. *)
Theorem isActive_iff (pe : OutputStationaryPE.Registers)
    (dump : OutputStationaryTopLevel.PE_dump) :
  OutputStationaryTopLevel.dump_pe pe = Ok dump ->
  (isActive dump = true <->
   OutputStationaryPE.X pe <> ConstantInteger 0
   /\ OutputStationaryPE.W pe <> ConstantInteger 0).
Proof.
  unfold OutputStationaryTopLevel.dump_pe. intros H.
  apply bind_Ok_inv in H. destruct H as [x [Ex H]].
  apply bind_Ok_inv in H. destruct H as [w [Ew H]].
  apply bind_Ok_inv in H. destruct H as [acc [_ H]]. injection H as <-.
  unfold isActive.
  cbn [OutputStationaryTopLevel.X OutputStationaryTopLevel.W].
  rewrite andb_true_iff, !negb_true_iff.
  rewrite <- !(toString_zero_iff), Ex, Ew.
  destruct (String.eqb_spec x "0") as [->|Hx];
    destruct (String.eqb_spec w "0") as [->|Hw]; split;
    try (intros [? ?]; congruence); try (intros [H1 H2]; split; congruence).
Qed.

Lemma isActive_iff_witness :
  isActive {| OutputStationaryTopLevel.X := "X_{01}";
              OutputStationaryTopLevel.W := "W_{11}";
              OutputStationaryTopLevel.Acc := "0" |} = true.
Proof.
  apply (proj2 (isActive_iff
                  {| OutputStationaryPE.X := SymbolicMatrixElement "X" 0 1;
                     OutputStationaryPE.W := SymbolicMatrixElement "W" 1 1;
                     OutputStationaryPE.Acc := ConstantInteger 0 |} _ eq_refl)).
  split; discriminate.
Defined.

End Decoders.

(** ** The fold of a processing element *)

Section Fold.
Import OutputStationaryPE.

Lemma throw_with_Err {A : Type} (parts : list Value) (e : Error) :
  exists e', @throw_with A parts e = Err e'.
Proof.
  induction parts as [|v rest IH]; cbn [throw_with]; [eauto|].
  destruct (toString v); cbn [bind]; eauto.
Qed.

Lemma throw_with_not_Ok {A : Type} (parts : list Value) (e : Error) (a : A) :
  throw_with parts e <> Ok a.
Proof. destruct (@throw_with_Err A parts e) as [e' ->]. discriminate. Qed.

(** X5: a fold succeeds only on an accumulator that is the zero constant,
    with [k = 0], or that is exactly the sum of the first [k] terms of
    the output of the two registers, [k] being at once the column of X
    and the row of W; it answers the sum of the first [k + 1] terms of
    the same output. *)
Theorem pe_fold_extends_sum (regs regs' : Registers) (X_in W_in : Value)
    (xn : string) (xi xj : Z) (wn : string) (wi wj : Z) :
  update regs X_in W_in = Ok regs' ->
  X regs = SymbolicMatrixElement xn xi xj ->
  W regs = SymbolicMatrixElement wn wi wj ->
  xj = wi
  /\ ((Acc regs = ConstantInteger 0 /\ xj = 0)
      \/ Acc regs = SymbolicPartialSum xn wn xi wj xj)
  /\ Acc regs' = SymbolicPartialSum xn wn xi wj (xj + 1).
Proof.
  unfold update, next_Acc. intros H EX EW. rewrite EX, EW in H.
  apply bind_Ok_inv in H. destruct H as [nextAcc [H E]]. injection E as <-.
  apply bind_Ok_inv in H. destruct H as [[] [Hv H]]. injection H as <-.
  cbn [Acc]. unfold validate in Hv.
  destruct (Z.eqb_spec xj wi) as [Ek|Ek]; cbn [negb] in Hv;
    [|now apply throw_with_not_Ok in Hv].
  split; [exact Ek|]. split; [|reflexivity].
  destruct (Acc regs) as [v|n a b|l r a b n|]; cbn [isConstantZero] in Hv;
    try (now apply throw_with_not_Ok in Hv).
  - destruct (v =? 0) eqn:E0; [|now apply throw_with_not_Ok in Hv].
    apply Z.eqb_eq in E0. subst v.
    destruct (Z.eqb_spec xj 0); [auto | discriminate].
  - destruct (n =? xj) eqn:En; [|now apply throw_with_not_Ok in Hv].
    destruct (l =? xn)%string eqn:El; [|now apply throw_with_not_Ok in Hv].
    destruct (r =? wn)%string eqn:Er; [|now apply throw_with_not_Ok in Hv].
    destruct (a =? xi) eqn:Ea; [|now apply throw_with_not_Ok in Hv].
    destruct (b =? wj) eqn:Eb; [|now apply throw_with_not_Ok in Hv].
    apply Z.eqb_eq in En, Ea, Eb. apply String.eqb_eq in El, Er.
    right. congruence.
Qed.

Lemma pe_fold_extends_sum_witness :
  Acc {| X := SymbolicMatrixElement "X" 1 2; W := SymbolicMatrixElement "W" 1 0;
         Acc := SymbolicPartialSum "X" "W" 1 0 2 |}
  = SymbolicPartialSum "X" "W" 1 0 (1 + 1).
Proof.
  exact (proj2 (proj2 (pe_fold_extends_sum
    {| X := SymbolicMatrixElement "X" 1 1; W := SymbolicMatrixElement "W" 1 0;
       Acc := SymbolicPartialSum "X" "W" 1 0 1 |}
    {| X := SymbolicMatrixElement "X" 1 2; W := SymbolicMatrixElement "W" 1 0;
       Acc := SymbolicPartialSum "X" "W" 1 0 2 |}
    (SymbolicMatrixElement "X" 1 2) (SymbolicMatrixElement "W" 1 0)
    "X" 1 1 "W" 1 0 eq_refl eq_refl eq_refl))).
Defined.

End Fold.

(** ** The systolic array: construction, wavefront and drain *)

Section ArrayMore.
Import OutputStationaryPE OutputStationarySystolicArray.

Lemma for_down_inv_or {S : Type} (I : Z -> S -> Prop) (P : Error -> Prop) (n : nat) :
  forall (lo : Z) (body : Z -> S -> result S) (s : S),
    I (lo + Z.of_nat n) s ->
    (forall i s, lo <= i < lo + Z.of_nat n -> I (i + 1) s ->
                 (exists s', body i s = Ok s' /\ I i s')
                 \/ (exists e, body i s = Err e /\ P e)) ->
    (exists s', for_down lo n body s = Ok s' /\ I lo s')
    \/ (exists e, for_down lo n body s = Err e /\ P e).
Proof.
  induction n as [|n IH]; intros lo body s H0 Hstep.
  - left. exists s. split; [reflexivity|].
    now replace (lo + Z.of_nat 0) with lo in H0 by lia.
  - cbn [for_down].
    destruct (Hstep (lo + Z.of_nat n) s ltac:(lia)) as [[s1 [E1 H1]]|[e [E1 He]]].
    + now replace (lo + Z.of_nat n + 1) with (lo + Z.of_nat (Datatypes.S n)) by lia.
    + rewrite E1. cbn [bind]. apply IH; [exact H1|].
      intros i t Hi. apply Hstep. lia.
    + right. exists e. rewrite E1. auto.
Qed.



Lemma update_flow_or (n : Z) (F : Z -> Z -> Registers)
    (inputs_X inputs_W : list Value) :
  0 <= n ->
  (update {| N := n; array := tab2 n F |} inputs_X inputs_W false
   = Ok {| N := n; array := tab2 n (flowed inputs_X inputs_W F (folded F)) |}
   /\ forall i j, 0 <= i < n -> 0 <= j < n ->
        next_Acc (F i j) = Ok (folded F i j))
  \/ (exists e i j, 0 <= i < n /\ 0 <= j < n
        /\ update {| N := n; array := tab2 n F |} inputs_X inputs_W false = Err e
        /\ next_Acc (F i j) = Err e).
Proof.
  intros Hn. unfold update. cbn [N array].
  pose (new := flowed inputs_X inputs_W F (folded F)).
  pose (g := fun m : Z =>
               tab2 n (fun i' j' => if m <=? i' then new i' j' else F i' j')).
  pose (P := fun e : Error =>
               exists i j, 0 <= i < n /\ 0 <= j < n /\ next_Acc (F i j) = Err e).
  pose (I := fun (m : Z) (s : Grid) =>
               s = g m /\ forall i j, m <= i < n -> 0 <= j < n ->
                            next_Acc (F i j) = Ok (folded F i j)).
  destruct (for_down_inv_or I P (Z.to_nat n) 0
              (fun i a => for_down 0 (Z.to_nat n)
                            (fun j a => flow_cell inputs_X inputs_W i j a) a)
              (tab2 n F)) as [[s [E [-> Hall]]]|[e [E [i [j [Hi [Hj He]]]]]]].
  - split; [|intros; lia]. apply tab2_ext. intros. zcases.
  - intros i s Hi [-> Hrows].
    pose (h := fun m : Z =>
                 tab2 n (fun i' j' =>
                           if (i <? i') || ((i' =? i) && (m <=? j'))
                           then new i' j' else F i' j')).
    pose (J := fun (m : Z) (s : Grid) =>
                 s = h m /\ forall j, m <= j < n ->
                              next_Acc (F i j) = Ok (folded F i j)).
    destruct (for_down_inv_or J P (Z.to_nat n) 0
                (fun j a => flow_cell inputs_X inputs_W i j a) (g (i + 1)))
      as [[s [E [-> Hrow]]]|[e [E He]]].
    + split; [|intros; lia]. apply tab2_ext. intros. zcases.
    + intros j s Hj [-> Hcols]. unfold flow_cell, h.
      rewrite pe_get_tab2 by lia. cbn [bind].
      assert (EX : (if j =? 0 then Ok (js_get inputs_X i)
                    else left <- pe_get
                           (tab2 n (fun i' j' =>
                              if (i <? i') || ((i' =? i) && (j + 1 <=? j'))
                              then new i' j' else F i' j')) i (j - 1) ;;
                         Ok (X left)) = Ok (X (new i j))).
      { unfold new, flowed. cbn [X]. destruct (Z.eqb_spec j 0); [reflexivity|].
        rewrite pe_get_tab2 by lia. cbn [bind]. zcases. }
      assert (EW : (if i =? 0 then Ok (js_get inputs_W j)
                    else up <- pe_get
                           (tab2 n (fun i' j' =>
                              if (i <? i') || ((i' =? i) && (j + 1 <=? j'))
                              then new i' j' else F i' j')) (i - 1) j ;;
                         Ok (W up)) = Ok (W (new i j))).
      { unfold new, flowed. cbn [W]. destruct (Z.eqb_spec i 0); [reflexivity|].
        rewrite pe_get_tab2 by lia. cbn [bind]. zcases. }
      assert (EP : (if (i <? i) || ((i =? i) && (j + 1 <=? j))
                    then new i j else F i j) = F i j) by zcases.
      assert (EN : {| X := X (new i j); W := W (new i j); Acc := folded F i j |}
                   = new i j) by reflexivity.
      clearbody new.
      rewrite EX, EW, EP. unfold OutputStationaryPE.update, bind at 1 2.
      destruct (next_Acc (F i j)) as [v|e] eqn:Ev.
      * left. assert (Ef : folded F i j = v) by (unfold folded; now rewrite Ev).
        cbn [bind]. rewrite <- Ef, EN. eexists. split; [reflexivity|]. split.
        -- rewrite pe_put_tab2 by lia. apply tab2_ext. intros i' j' Hi' Hj'. zcases.
        -- intros j' Hj'. destruct (Z.eq_dec j' j) as [->|]; [congruence|].
           apply Hcols. lia.
      * right. exists e. split; [reflexivity|]. exists i, j. repeat split; lia || auto.
    + left. exists (h 0). split; [exact E|]. split.
      * apply tab2_ext. intros. zcases.
      * intros i' j' Hi' Hj'. destruct (Z.eq_dec i' i) as [->|].
        -- apply Hrow. lia.
        -- apply Hrows; lia.
    + right. exists e. auto.
  - left. rewrite E. cbn [bind]. split.
    + do 2 f_equal. apply tab2_ext. intros. zcases.
    + intros i j Hi Hj. apply Hall; lia.
  - right. exists e, i, j. rewrite E. auto.
Qed.

(** X7: the wavefront update of an array behaves as a simultaneous
    update, although it mutates the PEs in place: it succeeds exactly
    when the fold of every PE succeeds, and then every PE takes the old X
    of its left neighbour (or its slot of [inputs_X] in column 0), the
    old W of its upper neighbour (or its slot of [inputs_W] in row 0) and
    the accumulator of its own fold; otherwise it fails with the error of
    the fold of one of the PEs. *)
Theorem systolic_array_wavefront (this : t) (inputs_X inputs_W : list Value) :
  well_shaped this ->
  (exists this',
      update this inputs_X inputs_W false = Ok this'
      /\ well_shaped this' /\ N this' = N this
      /\ forall i j, 0 <= i < N this -> 0 <= j < N this ->
           X (cell (array this') i j)
           = (if j =? 0 then js_get inputs_X i else X (cell (array this) i (j - 1)))
           /\ W (cell (array this') i j)
              = (if i =? 0 then js_get inputs_W j else W (cell (array this) (i - 1) j))
           /\ next_Acc (cell (array this) i j) = Ok (Acc (cell (array this') i j)))
  \/ (exists e i j,
         0 <= i < N this /\ 0 <= j < N this
         /\ update this inputs_X inputs_W false = Err e
         /\ next_Acc (cell (array this) i j) = Err e).
Proof.
  intros Hwf. pose proof (well_shaped_tab2 this Hwf) as E.
  destruct Hwf as [Hn _]. destruct this as [n a]. cbn [N array] in *.
  set (F := cell a) in *. clearbody F. subst a.
  destruct (update_flow_or n F inputs_X inputs_W Hn)
    as [[Eu Hall]|[e [i [j [Hi [Hj [Eu He]]]]]]].
  - left. eexists. split; [exact Eu|]. split; [now apply tab2_well_shaped|].
    split; [reflexivity|]. intros i j Hi Hj. cbn [array].
    rewrite cell_tab2 by lia. unfold flowed. cbn [X W Acc].
    split; [reflexivity|]. split; [reflexivity|]. now apply Hall.
  - right. exists e, i, j. auto.
Qed.

Lemma systolic_array_wavefront_witness :
  exists this',
    update {| N := 1;
              array := [[{| X := SymbolicMatrixElement "X" 0 0;
                            W := SymbolicMatrixElement "W" 0 0;
                            Acc := ConstantInteger 0 |}]] |}
      [SymbolicMatrixElement "X" 0 1] [SymbolicMatrixElement "W" 1 0] false
    = Ok this'
    /\ cell (array this') 0 0
       = {| X := SymbolicMatrixElement "X" 0 1;
            W := SymbolicMatrixElement "W" 1 0;
            Acc := SymbolicPartialSum "X" "W" 0 0 1 |}.
Proof.
  assert (Hwf : well_shaped
                  {| N := 1;
                     array := [[{| X := SymbolicMatrixElement "X" 0 0;
                                   W := SymbolicMatrixElement "W" 0 0;
                                   Acc := ConstantInteger 0 |}]] |})
    by (split; [simpl; lia
               | split; [reflexivity | constructor; [reflexivity | constructor]]]).
  destruct (systolic_array_wavefront _
              [SymbolicMatrixElement "X" 0 1] [SymbolicMatrixElement "W" 1 0] Hwf)
    as [[this' [E _]]|[e [i [j [_ [_ [E _]]]]]]].
  - exists this'. split; [exact E|]. vm_compute in E. injection E as <-. reflexivity.
  - vm_compute in E. discriminate.
Defined.

End ArrayMore.

Section ArrayDrain.
Import OutputStationaryPE OutputStationarySystolicArray.

Lemma drain_tab2 (n : Z) (inputs_X inputs_W : list Value) (k : nat) :
  0 <= n ->
  forall F,
    drain k inputs_X inputs_W {| N := n; array := tab2 n F |}
    = Ok {| N := n;
            array := tab2 n (fun r j =>
                       set_Acc (F r j)
                         (if Z.of_nat k <=? r then Acc (F (r - Z.of_nat k) j)
                          else ConstantInteger 0)) |}.
Proof.
  intros Hn. induction k as [|k IH]; intros F.
  - cbn [drain]. do 2 f_equal. apply tab2_ext. intros r j Hr Hj.
    unfold set_Acc. destruct (Z.leb_spec (Z.of_nat 0) r); [|lia].
    replace (r - Z.of_nat 0) with r by lia. now destruct (F r j).
  - cbn [drain]. rewrite update_evict by lia. cbn [bind]. rewrite IH.
    do 2 f_equal. apply tab2_ext. intros r j Hr Hj.
    unfold evicted, set_Acc. cbn [X W Acc]. rewrite Nat2Z.inj_succ.
    destruct (Z.leb_spec (Z.of_nat k) r); destruct (Z.leb_spec (Z.succ (Z.of_nat k)) r);
      try lia; try reflexivity.
    + destruct (Z.eqb_spec (r - Z.of_nat k) 0); [lia|].
      do 3 f_equal. lia.
    + destruct (Z.eqb_spec (r - Z.of_nat k) 0); [reflexivity | lia].
Qed.

(** X8: [k] evictions in a row move every accumulator [k] rows down and
    clear the [k] top rows, so that the output of the array after them is
    the accumulators that row [N - 1 - k] held at the start (bottom row
    first), and [N] evictions leave every accumulator at the zero
    constant; the X and W registers are not touched. *)
Theorem systolic_array_drain (this : t) (inputs_X inputs_W : list Value) (k : nat) :
  well_shaped this ->
  exists this' output,
    drain k inputs_X inputs_W this = Ok this'
    /\ well_shaped this' /\ N this' = N this
    /\ (forall r j, 0 <= r < N this -> 0 <= j < N this ->
          cell (array this') r j
          = {| X := X (cell (array this) r j);
               W := W (cell (array this) r j);
               Acc := if Z.of_nat k <=? r
                      then Acc (cell (array this) (r - Z.of_nat k) j)
                      else ConstantInteger 0 |})
    /\ produce_output this' true = Ok output
    /\ (forall j, 0 <= j < N this ->
          js_get output j
          = if Z.of_nat k <? N this
            then Acc (cell (array this) (N this - 1 - Z.of_nat k) j)
            else ConstantInteger 0).
Proof.
  intros Hwf. pose proof (well_shaped_tab2 this Hwf) as E.
  destruct Hwf as [Hn _]. destruct this as [n a]. cbn [N array] in *.
  set (F := cell a) in *. clearbody F. subst a.
  eexists. eexists. split; [now apply drain_tab2|].
  split; [now apply tab2_well_shaped|]. split; [reflexivity|].
  split; [|split].
  - intros r j Hr Hj. cbn [array]. now rewrite cell_tab2 by lia.
  - now apply produce_output_evict.
  - intros j Hj. rewrite js_get_tab by lia. unfold set_Acc. cbn [Acc].
    destruct (Z.leb_spec (Z.of_nat k) (n - 1)); destruct (Z.ltb_spec (Z.of_nat k) n);
      try lia; reflexivity.
Qed.

Lemma systolic_array_drain_witness :
  exists this',
    drain 1 [] [] {| N := 1;
                     array := [[{| X := ConstantInteger 0; W := ConstantInteger 0;
                                   Acc := SymbolicPartialSum "X" "W" 0 0 2 |}]] |}
    = Ok this'
    /\ cell (array this') 0 0 = OutputStationaryPE.new.
Proof.
  assert (Hwf : well_shaped
                  {| N := 1;
                     array := [[{| X := ConstantInteger 0; W := ConstantInteger 0;
                                   Acc := SymbolicPartialSum "X" "W" 0 0 2 |}]] |})
    by (split; [simpl; lia
               | split; [reflexivity | constructor; [reflexivity | constructor]]]).
  destruct (systolic_array_drain _ [] [] 1 Hwf)
    as [this' [output [E [_ [_ [H _]]]]]].
  exists this'. split; [exact E|].
  exact (H 0 0 (conj (Z.le_refl 0) Z.lt_0_1) (conj (Z.le_refl 0) Z.lt_0_1)).
Defined.

End ArrayDrain.

(** ** The delay triangle: construction, shape and length check *)

Section DelayMore.
Import DelayRegisterTriangle.

Lemma values_as_tab (l : list Value) (n : Z) :
  List.length l = Z.to_nat n -> l = tab n (js_get l).
Proof.
  intros Hlen. rewrite (list_as_tab l n Undefined Hlen) at 1.
  apply tab_ext. intros i Hi. unfold js_get.
  destruct (Z.ltb_spec i 0); [lia | reflexivity].
Qed.

Lemma well_shaped_triangle_tabj (this : t) :
  well_shaped_triangle this -> registers this = tabj (N this) (register this).
Proof.
  intros [Hn [Hlen Hrows]].
  rewrite (list_as_tab (registers this) (N this) [] Hlen) at 1.
  unfold tabj. apply tab_ext. intros i Hi. unfold register.
  apply values_as_tab. now apply Hrows.
Qed.

Lemma register_tabj (n : Z) (F : Z -> Z -> Value) (i j : Z) :
  0 <= i < n -> 0 <= j <= i ->
  register {| N := n; registers := tabj n F |} i j = F i j.
Proof.
  intros Hi Hj. unfold register, tabj. cbn [registers].
  rewrite nth_tab by lia. now rewrite js_get_tab by lia.
Qed.

Lemma tabj_well_shaped (n : Z) (F : Z -> Z -> Value) :
  0 <= n -> well_shaped_triangle {| N := n; registers := tabj n F |}.
Proof.
  intros Hn. unfold well_shaped_triangle. cbn [N registers].
  split; [assumption|]. split; [apply tab_length|].
  intros i Hi. unfold tabj. rewrite nth_tab by lia. apply tab_length.
Qed.



(** X10: on a triangle of size [N], [update] and [produce_output] fail
    with [LengthMismatch] exactly when the input has not [N + 1] slots;
    otherwise [update] keeps the shape of the triangle, shifts every
    chain by one register and puts slot [i + 1] of the input at the head
    of chain [i], and [produce_output] answers [N + 1] slots: slot 0 of
    the input, then the last register of each chain. *)
Theorem delay_triangle_step (this : t) (input : list Value) :
  well_shaped_triangle this ->
  (Z.of_nat (List.length input) <> N this + 1 ->
   update this input = Err LengthMismatch
   /\ produce_output this input = Err LengthMismatch)
  /\ (Z.of_nat (List.length input) = N this + 1 ->
      exists this' output,
        update this input = Ok this'
        /\ well_shaped_triangle this' /\ N this' = N this
        /\ (forall i j, 0 <= i < N this -> 0 <= j <= i ->
              register this' i j
              = if j =? 0 then js_get input (i + 1) else register this i (j - 1))
        /\ produce_output this input = Ok output
        /\ Z.of_nat (List.length output) = N this + 1
        /\ js_get output 0 = js_get input 0
        /\ forall i, 1 <= i <= N this ->
             js_get output i = register this (i - 1) (i - 1)).
Proof.
  intros Hwf. split.
  - intros Hlen. unfold update, produce_output, check_length.
    destruct (Z.eqb_spec (Z.of_nat (List.length input)) (N this + 1)); [lia|].
    split; reflexivity.
  - intros Hlen. pose proof (well_shaped_triangle_tabj this Hwf) as E.
    destruct Hwf as [Hn _]. destruct this as [n regs]. cbn [N registers] in *.
    set (F := register {| N := n; registers := regs |}) in *. clearbody F. subst regs.
    eexists. eexists. split; [now apply update_tabj|].
    split; [now apply tabj_well_shaped|]. split; [reflexivity|].
    split; [|split; [|split; [|split]]].
    + intros i j Hi Hj. now rewrite register_tabj by lia.
    + now apply produce_output_tabj.
    + rewrite tab_length. lia.
    + now rewrite js_get_tab by lia.
    + intros i Hi. rewrite js_get_tab by lia.
      destruct (Z.eqb_spec i 0); [lia | reflexivity].
Qed.

Lemma delay_triangle_step_witness :
  update {| N := 1; registers := [[ConstantInteger 0]] |} [] = Err LengthMismatch.
Proof.
  assert (Hwf : well_shaped_triangle {| N := 1; registers := [[ConstantInteger 0]] |}).
  { split; [simpl; lia|]. split; [reflexivity|]. intros i Hi. cbn [N] in Hi.
    replace i with 0 by lia. reflexivity. }
  apply (proj1 (delay_triangle_step _ [] Hwf)). simpl. lia.
Defined.

End DelayMore.

(** ** The memory: construction, bounds, windows *)

Section MemoryMore.
Import MatrixRAM.

Lemma checkPosition_spec (this : t) (r off cnt : Z) :
  (position_ok this r off cnt -> _checkPosition this r off cnt = Ok tt)
  /\ (~ position_ok this r off cnt -> _checkPosition this r off cnt = Err OutOfBounds).
Proof.
  unfold position_ok, _checkPosition. rewrite Z.geb_leb, Z.gtb_ltb.
  destruct (Z.ltb_spec r 0); destruct (Z.leb_spec (row_count this) r);
    destruct (Z.ltb_spec off 0); destruct (Z.ltb_spec (col_count this) (off + cnt));
    cbn [orb]; split; intros Hpos; try reflexivity; try lia;
    exfalso; apply Hpos; lia.
Qed.

(** X11: [readRow] and [writeRow] fail with [OutOfBounds] exactly when
    the row index is outside [0, row_count), or the column offset is
    negative, or the window ends past [col_count]; in every other case
    both succeed. *)
Theorem memory_bounds (this : t) (r off cnt : Z) (row : list Value) :
  (position_ok this r off cnt ->
   (exists out, readRow this r off cnt = Ok out)
   /\ (exists this', writeRow this r off cnt row = Ok this'))
  /\ (~ position_ok this r off cnt ->
      readRow this r off cnt = Err OutOfBounds
      /\ writeRow this r off cnt row = Err OutOfBounds).
Proof.
  destruct (checkPosition_spec this r off cnt) as [Hok Hbad].
  unfold readRow, writeRow. split; intros H.
  - rewrite (Hok H). cbn [bind]. split; [eauto|].
    match goal with
    | |- context [for_up 0 ?n ?body ?s] =>
        destruct (for_up_total n 0 body s) as [s' ->]
    end; [intros; eauto | cbn [bind]; eauto].
  - rewrite (Hbad H). split; reflexivity.
Qed.

Lemma memory_bounds_witness :
  readRow {| row_count := 1; col_count := 1; cells := [ConstantInteger 0] |} 1 0 1
  = Err OutOfBounds.
Proof.
  apply (proj2 (memory_bounds
                  {| row_count := 1; col_count := 1; cells := [ConstantInteger 0] |}
                  1 0 1 [])).
  unfold position_ok. simpl. lia.
Defined.

Lemma well_formed_memory_tab (this : t) :
  well_formed_memory this ->
  cells this = tab (row_count this * col_count this) (js_get (cells this)).
Proof. intros [_ [_ Hlen]]. now apply values_as_tab. Qed.

Lemma window_in_range (rows cols r off cnt i : Z) :
  0 <= r < rows -> 0 <= off -> off + cnt <= cols -> 0 <= i < cnt ->
  0 <= r * cols + off + i < rows * cols.
Proof. intros. pose proof (cell_in_range rows cols r (off + i)). lia. Qed.

Lemma readRow_window_tab (rows cols : Z) (f : Z -> Value) (r off cnt : Z) :
  0 <= r < rows -> 0 <= off -> off + cnt <= cols -> 0 <= cnt ->
  readRow {| row_count := rows; col_count := cols; cells := tab (rows * cols) f |}
    r off cnt
  = Ok (tab cnt (fun k => f (r * cols + off + k))).
Proof.
  intros Hr Ho Hc Hn. unfold readRow.
  rewrite (proj1 (checkPosition_spec _ r off cnt)) by (unfold position_ok; cbn; lia).
  cbn [bind cells col_count].
  rewrite js_slice_tab.
  - replace (r * cols + off + cnt - (r * cols + off)) with cnt by lia. reflexivity.
  - nia.
  - lia.
  - destruct (Z.eq_dec cnt 0) as [->|].
    + pose proof (cell_in_range rows cols r 0). nia.
    + pose proof (window_in_range rows cols r off cnt (cnt - 1)). lia.
Qed.

Lemma writeRow_window_tab (rows cols : Z) (f : Z -> Value) (r off cnt : Z)
    (row : list Value) :
  0 <= r < rows -> 0 <= off -> off + cnt <= cols ->
  writeRow {| row_count := rows; col_count := cols; cells := tab (rows * cols) f |}
    r off cnt row
  = Ok {| row_count := rows; col_count := cols;
          cells := tab (rows * cols)
                     (fun idx => if (r * cols + off <=? idx)
                                    && (idx <? r * cols + off + cnt)
                                 then js_get row (idx - (r * cols + off))
                                 else f idx) |}.
Proof.
  intros Hr Ho Hc. unfold writeRow.
  rewrite (proj1 (checkPosition_spec _ r off cnt)) by (unfold position_ok; cbn; lia).
  cbn [bind cells col_count row_count].
  set (start := r * cols + off).
  pose (g := fun m : Z =>
               tab (rows * cols)
                 (fun idx => if (start <=? idx) && (idx <? start + m)
                             then js_get row (idx - start) else f idx)).
  replace (tab (rows * cols) f) with (g 0) by (apply tab_ext; intros; zcases).
  rewrite (for_up_closed g).
  - cbn [bind]. do 2 f_equal. apply tab_ext. intros. zcases.
  - intros i Hi. unfold g. f_equal.
    rewrite js_set_tab
      by (pose proof (window_in_range rows cols r off cnt i); subst start; lia).
    apply tab_ext. intros idx Hidx. zcases. f_equal. lia.
Qed.

(** X12: on a memory of [row_count * col_count] cells, a read of
    [element_count >= 0] cells inside the bounds answers exactly that
    many cells, the cell [k] of the answer being the cell at
    [row_index * col_count + col_offset + k]. *)
Theorem readRow_window (this : t) (r off cnt : Z) :
  well_formed_memory this -> position_ok this r off cnt -> 0 <= cnt ->
  exists out,
    readRow this r off cnt = Ok out
    /\ Z.of_nat (List.length out) = cnt
    /\ forall k, 0 <= k < cnt ->
         js_get out k = js_get (cells this) (r * col_count this + off + k).
Proof.
  intros Hwf [Hr [Ho Hc]] Hn. pose proof (well_formed_memory_tab this Hwf) as E.
  destruct this as [rows cols cs]. cbn [row_count col_count cells] in *.
  set (f := js_get cs) in *. clearbody f. subst cs.
  eexists. split; [now apply readRow_window_tab|].
  split; [rewrite tab_length; lia|].
  intros k Hk. now rewrite js_get_tab by lia.
Qed.

Lemma readRow_window_witness :
  exists out,
    readRow {| row_count := 1; col_count := 2;
               cells := [ConstantInteger 1; ConstantInteger 2] |} 0 1 1 = Ok out
    /\ js_get out 0 = ConstantInteger 2.
Proof.
  destruct (readRow_window
              {| row_count := 1; col_count := 2;
                 cells := [ConstantInteger 1; ConstantInteger 2] |} 0 1 1)
    as [out [E [_ H]]].
  - unfold well_formed_memory. simpl. repeat split; lia.
  - unfold position_ok. simpl. lia.
  - lia.
  - exists out. split; [exact E|]. exact (H 0 ltac:(lia)).
Defined.

(** X13: a write inside the bounds keeps the dimensions and the number
    of cells of the memory, stores slot [k] of the row at
    [row_index * col_count + col_offset + k] for [k] below
    [element_count], and leaves every other cell as it was. *)
Theorem writeRow_effect (this : t) (r off cnt : Z) (row : list Value) :
  well_formed_memory this -> position_ok this r off cnt ->
  exists this',
    writeRow this r off cnt row = Ok this'
    /\ well_formed_memory this'
    /\ row_count this' = row_count this /\ col_count this' = col_count this
    /\ forall idx, 0 <= idx < row_count this * col_count this ->
         js_get (cells this') idx
         = if (r * col_count this + off <=? idx)
              && (idx <? r * col_count this + off + cnt)
           then js_get row (idx - (r * col_count this + off))
           else js_get (cells this) idx.
Proof.
  intros Hwf [Hr [Ho Hc]]. pose proof (well_formed_memory_tab this Hwf) as E.
  destruct Hwf as [Hrows [Hcols _]].
  destruct this as [rows cols cs]. cbn [row_count col_count cells] in *.
  set (f := js_get cs) in *. clearbody f. subst cs.
  eexists. split; [now apply writeRow_window_tab|].
  split; [|split; [reflexivity|split; [reflexivity|]]].
  - unfold well_formed_memory. cbn [row_count col_count cells].
    split; [assumption|]. split; [assumption|]. apply tab_length.
  - intros idx Hidx. cbn [cells]. now rewrite js_get_tab by lia.
Qed.

Lemma writeRow_effect_witness :
  exists this',
    writeRow {| row_count := 1; col_count := 2;
                cells := [ConstantInteger 1; ConstantInteger 2] |} 0 1 1
      [ConstantInteger 7] = Ok this'
    /\ js_get (cells this') 0 = ConstantInteger 1
    /\ js_get (cells this') 1 = ConstantInteger 7.
Proof.
  destruct (writeRow_effect
              {| row_count := 1; col_count := 2;
                 cells := [ConstantInteger 1; ConstantInteger 2] |} 0 1 1
              [ConstantInteger 7])
    as [this' [E [_ [_ [_ H]]]]].
  - unfold well_formed_memory. simpl. repeat split; lia.
  - unfold position_ok. simpl. lia.
  - exists this'. split; [exact E|]. split.
    + exact (H 0 ltac:(simpl; lia)).
    + exact (H 1 ltac:(simpl; lia)).
Defined.

(** X14: a row of [element_count] cells written inside the bounds is
    read back, cell for cell, by the read of the same window. *)
Theorem write_then_read (this : t) (r off cnt : Z) (row : list Value) :
  well_formed_memory this -> position_ok this r off cnt ->
  Z.of_nat (List.length row) = cnt ->
  exists this',
    writeRow this r off cnt row = Ok this' /\ readRow this' r off cnt = Ok row.
Proof.
  intros Hwf [Hr [Ho Hc]] Hlen. pose proof (well_formed_memory_tab this Hwf) as E.
  destruct this as [rows cols cs]. cbn [row_count col_count cells] in *.
  set (f := js_get cs) in *. clearbody f. subst cs.
  eexists. split; [now apply writeRow_window_tab|].
  rewrite readRow_window_tab by lia. f_equal.
  transitivity (tab cnt (js_get row)); [|symmetry; apply values_as_tab; lia].
  apply tab_ext. intros k Hk. zcases. f_equal. lia.
Qed.

Lemma write_then_read_witness :
  exists this',
    writeRow {| row_count := 1; col_count := 2;
                cells := [ConstantInteger 1; ConstantInteger 2] |} 0 1 1
      [ConstantInteger 7] = Ok this'
    /\ readRow this' 0 1 1 = Ok [ConstantInteger 7].
Proof.
  apply (write_then_read
           {| row_count := 1; col_count := 2;
              cells := [ConstantInteger 1; ConstantInteger 2] |} 0 1 1
           [ConstantInteger 7]).
  - unfold well_formed_memory. simpl. repeat split; lia.
  - unfold position_ok. simpl. lia.
  - reflexivity.
Defined.

End MemoryMore.

Section MemoryNew.
Import MatrixRAM.




End MemoryNew.

(** ** The controller: phases and write schedule *)

Section ControllerMore.
Import OutputStationaryController.

(** X17: for an array of width [N >= 1], the controller never reads the
    input memories while it evicts or writes, it writes only while it
    evicts, and it writes every output row [r] in exactly one cycle,
    [drainStart + (N - 1 - r)]. *)
Theorem controller_phases (N L c : Z) :
  1 <= N ->
  (X_memReadEnable (signals_at N L c) = true ->
   movesOutputDown (signals_at N L c) = false
   /\ Y_memWriteEnable (signals_at N L c) = false)
  /\ W_memReadEnable (signals_at N L c) = X_memReadEnable (signals_at N L c)
  /\ (Y_memWriteEnable (signals_at N L c) = true ->
      movesOutputDown (signals_at N L c) = true)
  /\ forall r, 0 <= r < N ->
       (Y_memWriteEnable (signals_at N L c) = true
        /\ Y_memWriteAddress (signals_at N L c) = r
        <-> c = drainStart N L + (N - 1 - r)).
Proof.
  intros HN. unfold signals_at, produceControlSignals, drainStart.
  cbn [X_memReadEnable W_memReadEnable Y_memWriteEnable Y_memWriteAddress
       movesOutputDown arrayWidth streamLength cycleCount].
  rewrite !Z.geb_leb. split; [|split; [reflexivity|split]].
  - intros H. apply Z.ltb_lt in H.
    destruct (Z.leb_spec (2 * N - 1 + L) c); [lia|]. split; reflexivity.
  - intros H. apply andb_true_iff in H. tauto.
  - intros r Hr. rewrite andb_true_iff, Z.leb_le, Z.ltb_lt. lia.
Qed.

Lemma controller_phases_witness :
  Y_memWriteEnable (signals_at 2 2 6) = true
  /\ Y_memWriteAddress (signals_at 2 2 6) = 0.
Proof.
  apply (proj2 (proj2 (proj2 (proj2 (controller_phases 2 2 6 ltac:(lia)))) 0
                  ltac:(lia))).
  reflexivity.
Defined.

End ControllerMore.

(** ** The top-level design: construction and schedule *)

Section TopLevelMore.
Import OutputStationaryTopLevel.





(** X20: while the array is filled (up to cycle [drainStart]), after [c]
    updates the PE at [(i, j)] holds [X[i][k]] and [W[k][j]] with
    [k = c - 1 - i - j] when [0 <= k < L], and the zero constant in both
    registers otherwise; its accumulator is the sum of the first
    [min k L] terms of output [(i, j)], or the zero constant when that
    number is not positive. *)
Theorem fill_schedule (X_row_count X_col_count W_row_count W_col_count
    systolic_row_count systolic_col_count : Z) (this : t) (c : Z) :
  new X_row_count X_col_count W_row_count W_col_count
      systolic_row_count systolic_col_count = Ok this ->
  0 <= c <= drainStart systolic_row_count X_col_count ->
  exists st,
    run (Z.to_nat c) this = Ok st
    /\ forall i j, 0 <= i < systolic_row_count -> 0 <= j < systolic_row_count ->
         let k := c - 1 - i - j in
         cell (OutputStationarySystolicArray.array (systolicArray st)) i j
         = {| OutputStationaryPE.X :=
                if (0 <=? k) && (k <? X_col_count)
                then SymbolicMatrixElement "X" i k else ConstantInteger 0;
              OutputStationaryPE.W :=
                if (0 <=? k) && (k <? X_col_count)
                then SymbolicMatrixElement "W" k j else ConstantInteger 0;
              OutputStationaryPE.Acc :=
                if Z.min k X_col_count <=? 0 then ConstantInteger 0
                else SymbolicPartialSum "X" "W" i j (Z.min k X_col_count) |}.
Proof.
  intros Hnew Hc. apply new_Ok_inv in Hnew.
  destruct Hnew as [_ [_ [_ [_ [HN [HL ->]]]]]].
  set (N := systolic_row_count) in *. set (L := X_col_count) in *.
  exists (state_at N L c). split.
  - rewrite run_state_at by lia. do 2 f_equal. lia.
  - intros i j Hi Hj k.
    cbn [systolicArray state_at OutputStationarySystolicArray.array].
    rewrite cell_tab2 by lia. unfold pe_at, acc_at, X_stream, W_stream, partial_sum, zero.
    fold k. destruct (Z.leb_spec c (drainStart N L)); [reflexivity | lia].
Qed.

Lemma fill_schedule_witness :
  exists st,
    run 3 (state_at 2 2 0) = Ok st
    /\ cell (OutputStationarySystolicArray.array (systolicArray st)) 0 1
       = {| OutputStationaryPE.X := SymbolicMatrixElement "X" 0 1;
            OutputStationaryPE.W := SymbolicMatrixElement "W" 1 1;
            OutputStationaryPE.Acc := SymbolicPartialSum "X" "W" 0 1 1 |}.
Proof.
  assert (E : new 2 2 2 2 2 2 = Ok (state_at 2 2 0)) by (vm_compute; reflexivity).
  destruct (fill_schedule 2 2 2 2 2 2 _ 3 E ltac:(unfold drainStart; lia))
    as [st [Er H]].
  exists st. split; [exact Er|]. exact (H 0 1 ltac:(lia) ltac:(lia)).
Defined.

(** X21: while the array is drained, [d] cycles after [drainStart], the
    X and W registers of every PE hold the zero constant, the PE at row
    [r] holds the finished sum of row [r - d] (the zero constant in the
    [d] top rows), and the output memory holds the finished sums in its
    rows from [N - d] on and the zero constant above them; from
    [d = N] on the output memory is complete and stays so, and every
    accumulator is cleared. *)
Theorem drain_schedule (X_row_count X_col_count W_row_count W_col_count
    systolic_row_count systolic_col_count : Z) (this : t) (d : Z) :
  new X_row_count X_col_count W_row_count W_col_count
      systolic_row_count systolic_col_count = Ok this ->
  0 <= d ->
  exists st,
    run (Z.to_nat (drainStart systolic_row_count X_col_count + d)) this = Ok st
    /\ forall r j, 0 <= r < systolic_row_count -> 0 <= j < systolic_row_count ->
         cell (OutputStationarySystolicArray.array (systolicArray st)) r j
         = {| OutputStationaryPE.X := ConstantInteger 0;
              OutputStationaryPE.W := ConstantInteger 0;
              OutputStationaryPE.Acc :=
                if d <=? r then partial_sum (r - d) j X_col_count
                else ConstantInteger 0 |}
         /\ js_get (MatrixRAM.cells (Y_mem st)) (r * systolic_row_count + j)
            = if systolic_row_count - d <=? r then partial_sum r j X_col_count
              else ConstantInteger 0.
Proof.
  intros Hnew Hd. apply new_Ok_inv in Hnew.
  destruct Hnew as [_ [_ [_ [_ [HN [HL ->]]]]]].
  set (N := systolic_row_count) in *. set (L := X_col_count) in *.
  exists (state_at N L (drainStart N L + d)). split.
  - rewrite run_state_at by (unfold drainStart; lia). do 2 f_equal.
    unfold drainStart. lia.
  - intros r j Hr Hj. split.
    + cbn [systolicArray state_at OutputStationarySystolicArray.array].
      rewrite cell_tab2 by lia. closed_forms.
    + cbn [Y_mem state_at MatrixRAM.cells]. rewrite js_get_matrix by lia.
      closed_forms.
Qed.

Lemma drain_schedule_witness :
  exists st,
    run (Z.to_nat (drainStart 2 2 + 1)) (state_at 2 2 0) = Ok st
    /\ js_get (MatrixRAM.cells (Y_mem st)) (1 * 2 + 0)
       = SymbolicPartialSum "X" "W" 1 0 2.
Proof.
  assert (E : new 2 2 2 2 2 2 = Ok (state_at 2 2 0)) by (vm_compute; reflexivity).
  destruct (drain_schedule 2 2 2 2 2 2 _ 1 E ltac:(lia)) as [st [Er H]].
  exists st. split; [exact Er|].
  exact (proj2 (H 1 0 ltac:(lia) ltac:(lia))).
Defined.

(** X22: after [c] updates, register [j] of chain [i] of the X delay
    triangle holds the element [X[i + 1][c - 1 - j]] that the memory
    streamed [j + 1] cycles earlier, and that of the W triangle
    [W[c - 1 - j][i + 1]], or the zero constant when [c - 1 - j] is
    outside the stream; so row [i] of X enters the array [i] cycles
    after row 0. *)
Theorem skew_schedule (X_row_count X_col_count W_row_count W_col_count
    systolic_row_count systolic_col_count : Z) (this : t) (c : Z) :
  new X_row_count X_col_count W_row_count W_col_count
      systolic_row_count systolic_col_count = Ok this ->
  0 <= c ->
  exists st,
    run (Z.to_nat c) this = Ok st
    /\ forall i j, 0 <= i < systolic_row_count - 1 -> 0 <= j <= i ->
         let t := c - 1 - j in
         register (X_delay st) i j
         = (if (0 <=? t) && (t <? X_col_count)
            then SymbolicMatrixElement "X" (i + 1) t else ConstantInteger 0)
         /\ register (W_delay st) i j
            = (if (0 <=? t) && (t <? X_col_count)
               then SymbolicMatrixElement "W" t (i + 1) else ConstantInteger 0).
Proof.
  intros Hnew Hc. apply new_Ok_inv in Hnew.
  destruct Hnew as [_ [_ [_ [_ [HN [HL ->]]]]]].
  set (N := systolic_row_count) in *. set (L := X_col_count) in *.
  exists (state_at N L c). split.
  - rewrite run_state_at by lia. do 2 f_equal. lia.
  - intros i j Hi Hj t. cbn [X_delay W_delay state_at].
    rewrite !register_tabj by lia. split; reflexivity.
Qed.

Lemma skew_schedule_witness :
  exists st,
    run 1 (state_at 2 2 0) = Ok st
    /\ register (X_delay st) 0 0 = SymbolicMatrixElement "X" 1 0.
Proof.
  assert (E : new 2 2 2 2 2 2 = Ok (state_at 2 2 0)) by (vm_compute; reflexivity).
  destruct (skew_schedule 2 2 2 2 2 2 _ 1 E ltac:(lia)) as [st [Er H]].
  exists st. split; [exact Er|].
  exact (proj1 (H 0 0 ltac:(lia) ltac:(lia))).
Defined.

End TopLevelMore.
